(** * Revolt voice assistant: the WebSocket servers and their turn taking

    The repository holds three variants of one WebSocket relay:
    - [server.js]: a process-wide [activeConnections] map from a random
      [connectionId] to a connection object ([Module Server]);
    - [part_000]: a [VoiceSession] class, one object per socket
      ([Module Voice]);
    - [part_001]: two closure variables per socket, [liveSession] and
      [isSessionActive] ([Module Live]).

    Every handler is an [async] function.  A handler runs without
    interruption up to its next [await]; there the event loop may run any
    other ready callback.  The model is therefore an event loop over a
    shared state: a handler is cut at its [await]s into segments, a
    suspended handler is a defunctionalised continuation kept in a table
    of pending tasks, and a schedule is a list of actions (an external
    event arrives, or a pending task is woken up).

    What the model leaves out: wall-clock values ([latency], the length of
    a speaking timer, the [sessionId] of part_001), which of the three
    greetings is drawn, the text of the system prompts, and the [await]s
    after which a handler does nothing more.  An [await] on a value that
    is not a promise is merged with the segment before it. *)

From stdpp Require Import gmap strings list pretty.

Open Scope string_scope.
Open Scope list_scope.
Open Scope nat_scope.
Open Scope stdpp_scope.

(** ** Values on the wire *)

Set Warnings "-register-all".

(** What [JSON.parse] can return. *)
Inductive json :=
| JNull
| JBool (b : bool)
| JNum (z : Z)
| JStr (s : string)
| JArr (items : list json)
| JObj (fields : list (string * json)).

(** The inbound frame, as [JSON.parse(message)] sees it: the call throws a
    [SyntaxError] or returns a value. *)
Inductive parse_result :=
| SyntaxError (message : string)
| Parsed (data : json).

(** Own property of an object literal; [JSON.parse] keeps the last of
    duplicated keys. *)
Fixpoint own_property (fields : list (string * json)) (name : string) : option json :=
  match fields with
  | [] => None
  | (k, v) :: rest =>
      match own_property rest name with
      | Some later => Some later
      | None => if String.eqb k name then Some v else None
      end
  end.

(** [data.name] for [name] one of [type], [audio], [mimeType], [text]:
    [None] is [undefined].  Primitives and arrays have no such property;
    on [null] the access throws, which the callers handle before. *)
Definition property (data : json) (name : string) : option json :=
  match data with
  | JObj fields => own_property fields name
  | _ => None
  end.

Definition is_null (data : json) : bool :=
  match data with JNull => true | _ => false end.

(** [switch (data.type)] compares with [===]: only a string matches a
    [case] label. *)
Definition tag_is (tag : option json) (label : string) : bool :=
  match tag with
  | Some (JStr s) => String.eqb s label
  | _ => false
  end.

(** The frame parsed to an object whose [type] is the string [label]. *)
Definition tagged_as (label : string) (message : parse_result) : bool :=
  match message with
  | Parsed data => tag_is (property data "type") label
  | SyntaxError _ => false
  end.

(** Outbound frames, one constructor per [type] the three variants send. *)
Inductive frame :=
| conversation_started (message : string)
| ai_response (text : string) (transcription : option string)
| ai_finished_speaking
| natural_interrupt (message : string)
| interrupted (message : string)
| ready_for_input (message : string)
| conversation_ended (message : string)
| error (message : string)
| natural_interrupt_confirmed (message : string)
| session_started (message : string)
| processing_audio (message : string)
| text_response (text : string)
| tts_request (text : string)
| interruption_handled.

(** What goes to the provider with [chat.sendMessage]. *)
Inductive prompt :=
| Greeting
| Transcript (text : string)
| Audio (audio mimeType : option json)
| Text (text : option json).

(** The observable effects of a handler: a frame written with
    [ws.send], or a provider call started with [sendMessage]. *)
Inductive effect :=
| Send (ws : nat) (f : frame)
| SendMessage (ws : nat) (p : prompt).

Definition is_error (e : effect) : bool :=
  match e with Send _ (error _) => true | _ => false end.

Definition is_interrupt (e : effect) : bool :=
  match e with Send _ (natural_interrupt _) => true | _ => false end.

Definition is_assistant_turn (e : effect) : bool :=
  match e with Send _ (ai_response _ _) => true | _ => false end.

Definition is_provider_call (e : effect) : bool :=
  match e with SendMessage _ _ => true | _ => false end.

Definition errors (l : list effect) : nat := length (filter (λ e, is_error e = true) l).

(** How a pending task is woken.  The awaited promise is fulfilled, with
    a transcription or with a provider response whose [text()] is [text];
    it is fulfilled with a response whose [text()] throws (the SDK does so
    for a blocked response); it is rejected; or a [setTimeout] delay has
    elapsed. *)
Inductive wake :=
| Fulfilled (text : string)
| Blocked (message : string)
| Rejected (message : string)
| Elapsed.

(** Fields that hold an SDK object, [null], or were never assigned. *)
Inductive ref := undefined | null | object.

Definition truthy (r : ref) : bool :=
  match r with object => true | _ => false end.

(** Transport state of a socket ([readyState]). *)
Inductive ready_state := OPEN | CLOSING | CLOSED.

Global Instance ready_state_eq_dec : EqDecision ready_state.
Proof. solve_decision. Defined.

Global Instance ref_eq_dec : EqDecision ref.
Proof. solve_decision. Defined.

(** ** Handlers as segments *)

Section Handlers.
Context {St K : Type}.

(** How a segment of a handler stops: it returns, it throws, or it
    reaches an [await] (or leaves a timer) with the rest of the work
    [k]. *)
Inductive completion (A : Type) :=
| Normal (a : A)
| Throw (message : string)
| Suspend (k : K).

Global Arguments Normal {A} a.
Global Arguments Throw {A} message.
Global Arguments Suspend {A} k.

Definition js (A : Type) : Type := St → St * list effect * completion A.

Global Instance js_ret : MRet js := λ A a st, (st, [], Normal a).

Global Instance js_bind : MBind js := λ A B f m st,
  match m st with
  | (st', out, Normal a) =>
      match f a st' with
      | (st'', out', c) => (st'', out ++ out', c)
      end
  | (st', out, Throw e) => (st', out, Throw e)
  | (st', out, Suspend k) => (st', out, Suspend k)
  end.

Definition throw {A} (message : string) : js A := λ st, (st, [], Throw message).
Definition await {A} (k : K) : js A := λ st, (st, [], Suspend k).
Definition get_state : js St := λ st, (st, [], Normal st).
Definition modify (f : St → St) : js unit := λ st, (f st, [], Normal tt).
Definition emit (e : effect) : js unit := λ st, (st, [e], Normal tt).

(** [ws.send(JSON.stringify(f))].  The call is recorded whatever the state
    of the socket: a frame sent after the close is dropped by the
    library, the call does not throw. *)
Definition send (ws : nat) (f : frame) : js unit := emit (Send ws f).

(** [try { body } catch (error) { handler(error.message) }] *)
Definition try_catch {A} (body : js A) (handler : string → js A) : js A := λ st,
  match body st with
  | (st', out, Throw e) =>
      match handler e st' with
      | (st'', out', c) => (st'', out ++ out', c)
      end
  | r => r
  end.

(** The result of one segment, as the event loop needs it. *)
Record outcome := Outcome {
  o_state : St;
  o_effects : list effect;
  o_pending : option K;
  o_rejected : option string
}.

Definition segment (m : js unit) (st : St) : outcome :=
  match m st with
  | (st', out, Normal _) => Outcome st' out None None
  | (st', out, Throw e) => Outcome st' out None (Some e)
  | (st', out, Suspend k) => Outcome st' out (Some k) None
  end.
End Handlers.

Global Arguments js : clear implicits.
Global Arguments completion : clear implicits.
Global Arguments outcome : clear implicits.

(** ** The event loop *)

Section EventLoop.
Context {St K Ev : Type}.

(** [on_event e st] is the first segment of the callback registered for
    [e]; [on_wake k v st] is the segment that follows the suspension
    [k] when it is woken with [v].  [None]: the event cannot happen in
    [st], or [k] is not woken by [v]. *)
Variable on_event : Ev → St → option (outcome St K).
Variable on_wake : K → wake → St → option (outcome St K).

Inductive action :=
| Arrive (e : Ev)
| Wake (task : nat) (v : wake).

(** The loop: the shared state, the suspended tasks, the effects so far
    (oldest first, each with the task that caused it), the next task
    number, and the handlers whose promise was rejected with nobody to
    catch it. *)
Record world := World {
  w_state : St;
  w_pending : gmap nat K;
  w_log : list (nat * effect);
  w_next : nat;
  w_unhandled : list (nat * string)
}.

Definition commit (task : nat) (o : outcome St K) (pending : gmap nat K)
    (w : world) (next : nat) : world :=
  {| w_state := o_state o;
     w_pending := match o_pending o with
                  | Some k => <[task := k]> pending
                  | None => pending
                  end;
     w_log := w_log w ++ ((λ e, (task, e)) <$> o_effects o);
     w_next := next;
     w_unhandled := match o_rejected o with
                    | Some e => w_unhandled w ++ [(task, e)]
                    | None => w_unhandled w
                    end |}.

Definition step (w : world) (a : action) : option world :=
  match a with
  | Arrive e =>
      o ← on_event e (w_state w);
      Some (commit (w_next w) o (w_pending w) w (S (w_next w)))
  | Wake task v =>
      k ← w_pending w !! task;
      o ← on_wake k v (w_state w);
      Some (commit task o (delete task (w_pending w)) w (w_next w))
  end.

(** A schedule; an action that is not enabled is skipped. *)
Definition run (w : world) (schedule : list action) : world :=
  foldl (λ w a, default w (step w a)) w schedule.

(** Every action of the schedule is enabled when its turn comes. *)
Fixpoint feasible (w : world) (schedule : list action) : bool :=
  match schedule with
  | [] => true
  | a :: rest =>
      match step w a with
      | Some w' => feasible w' rest
      | None => false
      end
  end.

(** The effects of one task, in order. *)
Definition effects_of (task : nat) (log : list (nat * effect)) : list effect :=
  snd <$> filter (λ p, p.1 = task) log.

(** Task numbers in use are below [w_next]. *)
Definition tidy (w : world) : Prop :=
  (∀ t e, (t, e) ∈ w_log w → t < w_next w) ∧
  (∀ t, is_Some (w_pending w !! t) → t < w_next w).

(** A property of one task: of its suspension and of its effects so
    far. *)
Definition holds_for (P : option K → list effect → Prop) (t : nat) (w : world) : Prop :=
  P (w_pending w !! t) (effects_of t (w_log w)).

(** A segment that lets no exception escape, reports at most one
    [error], and is over once it has reported one. *)
Definition disciplined (o : outcome St K) : Prop :=
  o_rejected o = None ∧
  errors (o_effects o) ≤ 1 ∧
  (is_Some (o_pending o) → errors (o_effects o) = 0).


Definition quiet_so_far (k : option K) (fr : list effect) : Prop :=
  errors fr ≤ 1 ∧ (is_Some k → errors fr = 0).

(** No rejection so far, and every task is [quiet_so_far]. *)
Definition settled (w : world) : Prop :=
  tidy w ∧ w_unhandled w = [] ∧
  ∀ t, t < w_next w → holds_for quiet_so_far t w.
End EventLoop.

(** ** What the three message handlers share *)

Section Decode.
Context {St K : Type}.

(** [const data = JSON.parse(message)] *)
Definition JSON_parse (message : parse_result) : js St K json :=
  match message with
  | SyntaxError e => throw e
  | Parsed data => mret data
  end.

(** [data.type]: reading a property of [null] throws a [TypeError]. *)
Definition data_type (data : json) : js St K (option json) :=
  if is_null data then throw "Cannot read properties of null (reading 'type')"
  else mret (property data "type").
End Decode.

(** The phases of a conversation, read off the fields the handlers test. *)
Inductive phase := Idle | Listening | Speaking | Ended.

Global Instance phase_eq_dec : EqDecision phase.
Proof. solve_decision. Defined.

(** ** server.js *)

Module Server.

(** The object stored in [activeConnections]:
    [{ ws, isListening: false }], to which [handleStartConversation]
    adds [model], [chat] and [isSpeaking].  An object lives in
    [objects] under the socket it was created for, so its [ws] field is
    its key. *)
Record connection := Connection {
  isListening : bool;
  isSpeaking : option bool;
  model : ref;
  chat : ref
}.

Definition fresh : connection :=
  {| isListening := false; isSpeaking := None; model := undefined; chat := undefined |}.

Definition set_isListening (b : bool) (o : connection) : connection :=
  {| isListening := b; isSpeaking := isSpeaking o; model := model o; chat := chat o |}.
Definition set_isSpeaking (b : bool) (o : connection) : connection :=
  {| isListening := isListening o; isSpeaking := Some b; model := model o; chat := chat o |}.
Definition set_model (r : ref) (o : connection) : connection :=
  {| isListening := isListening o; isSpeaking := isSpeaking o; model := r; chat := chat o |}.
Definition set_chat (r : ref) (o : connection) : connection :=
  {| isListening := isListening o; isSpeaking := isSpeaking o; model := model o; chat := r |}.

(** [if (connection.isSpeaking)]: [undefined] and [false] are falsy. *)
Definition speaking (o : connection) : bool :=
  match isSpeaking o with Some true => true | _ => false end.

Definition phase_of (o : connection) : phase :=
  match chat o with
  | undefined => Idle
  | null => Ended
  | object => if speaking o then Speaking else Listening
  end.

(** The process: the connection objects (allocated on [connection],
    never freed: a handler keeps its reference after the map entry is
    deleted), the [activeConnections] map, and for every socket the
    [connectionId] its callbacks closed over and its transport state. *)
Record state := State {
  objects : gmap nat connection;
  activeConnections : gmap string nat;
  sockets : gmap nat (string * ready_state)
}.

Definition initial : state :=
  {| objects := ∅; activeConnections := ∅; sockets := ∅ |}.

Definition deref (st : state) (c : nat) : connection :=
  default fresh (objects st !! c).

Definition assign (c : nat) (f : connection → connection) (st : state) : state :=
  {| objects := alter f c (objects st);
     activeConnections := activeConnections st;
     sockets := sockets st |}.

(** The phase of the conversation that the callbacks of socket [ws]
    operate on, [None] when [activeConnections.get(connectionId)] is
    [undefined]. *)
Definition session (st : state) (ws : nat) : option connection :=
  '(connectionId, _) ← sockets st !! ws;
  c ← activeConnections st !! connectionId;
  Some (deref st c).

(** Where a handler is suspended. *)
Inductive cont :=
| greeting_reply (ws c : nat)
| stt_result (ws c : nat)
| provider_reply (ws c : nat) (transcribedText : string)
| speaking_timer (ws c : nat)
| ready_timer (ws : nat) (connectionId : string).

Abbreviation handler := (js state cont).

Definition activeConnections_get (connectionId : string) : handler (option nat) :=
  st ← get_state; mret (activeConnections st !! connectionId).

Definition read {A} (c : nat) (f : connection → A) : handler A :=
  st ← get_state; mret (f (deref st c)).

Definition sampleQueries : list string :=
  [ "Tell me about RV400 features";
    "What's the price of RV400 BRZ?";
    "How far can I travel on a single charge?";
    "What's the top speed?";
    "How do I book a test ride?";
    "Tell me about the mobile app features";
    "What colors are available?";
    "How long does charging take?";
    "What's included in the warranty?";
    "Where can I service my Revolt bike?" ].

(** *** handleStartConversation *)

Definition start_failed (ws : nat) : string → handler unit :=
  λ _, send ws (error "Failed to start conversation").

Definition handleStartConversation (ws : nat) (connectionId : string) : handler unit :=
  try_catch
    (connection ← activeConnections_get connectionId;
     match connection with
     | None => throw "Cannot set properties of undefined (setting 'model')"
     | Some c =>
         modify (assign c (set_model object));;
         modify (assign c (set_chat object));;
         modify (assign c (set_isListening true));;
         modify (assign c (set_isSpeaking false));;
         send ws (conversation_started "Ready to chat about Revolt Motors!");;
         modify (assign c (set_isSpeaking true));;
         emit (SendMessage c Greeting);;
         await (greeting_reply ws c)
     end)
    (start_failed ws).

(** After [await connection.chat.sendMessage(randomGreeting)]:
    [greeting.response.text()] is read while the frame is built. *)
Definition greeting_arrived (ws c : nat) (v : wake) : option (handler unit) :=
  match v with
  | Fulfilled text =>
      Some (try_catch
              (send ws (ai_response text None);;
               await (speaking_timer ws c))
              (start_failed ws))
  | Blocked e | Rejected e => Some (try_catch (throw e) (start_failed ws))
  | Elapsed => None
  end.

(** The [setTimeout] callback of both handlers:
    [if (connection && connection.isSpeaking) ...]. *)
Definition finished_speaking (ws c : nat) : handler unit :=
  s ← read c speaking;
  if (s : bool) then
    modify (assign c (set_isSpeaking false));;
    send ws ai_finished_speaking
  else mret tt.

(** *** handleAudioData *)

Definition audio_failed (ws : nat) : string → handler unit :=
  λ _, send ws (error "Failed to process audio").

Definition handleAudioData (ws : nat) (connectionId : string)
    (audioData : option json) : handler unit :=
  try_catch
    (connection ← activeConnections_get connectionId;
     match connection with
     | None => send ws (error "No active conversation")
     | Some c =>
         ch ← read c chat;
         if negb (truthy (ch : ref)) then send ws (error "No active conversation")
         else
           s ← read c speaking;
           (if (s : bool) then
              modify (assign c (set_isSpeaking false));;
              send ws (natural_interrupt "AI stopped due to user voice input")
            else mret tt);;
           await (stt_result ws c)
     end)
    (audio_failed ws).

(** After [await simulateSTT(audioData)], which resolves with one of
    the sample queries: [connection.chat.sendMessage(transcribedText)]
    is evaluated and awaited. *)
Definition transcribed (ws c : nat) (v : wake) : option (handler unit) :=
  match v with
  | Fulfilled transcribedText =>
      if bool_decide (transcribedText ∈ sampleQueries) then
        Some (try_catch
                (ch ← read c chat;
                 match ch with
                 | object =>
                     emit (SendMessage c (Transcript transcribedText));;
                     await (provider_reply ws c transcribedText)
                 | _ => throw "Cannot read properties of null (reading 'sendMessage')"
                 end)
                (audio_failed ws))
      else None
  | _ => None
  end.

(** After [await connection.chat.sendMessage(transcribedText)]:
    [isSpeaking] is set, then [response.response.text()] is read while
    the frame is built. *)
Definition replied (ws c : nat) (transcribedText : string) (v : wake)
    : option (handler unit) :=
  match v with
  | Fulfilled text =>
      Some (try_catch
              (modify (assign c (set_isSpeaking true));;
               send ws (ai_response text (Some transcribedText));;
               await (speaking_timer ws c))
              (audio_failed ws))
  | Blocked e =>
      Some (try_catch
              (modify (assign c (set_isSpeaking true));;
               throw e)
              (audio_failed ws))
  | Rejected e => Some (try_catch (throw e) (audio_failed ws))
  | Elapsed => None
  end.

(** *** handleInterrupt (defined, but no [case] calls it) *)

Definition handleInterrupt (ws : nat) (connectionId : string) : handler unit :=
  try_catch
    (connection ← activeConnections_get connectionId;
     match connection with
     | Some c =>
         modify (assign c (set_isListening false));;
         send ws (interrupted "AI stopped speaking, ready for new input");;
         await (ready_timer ws connectionId)
     | None => mret tt
     end)
    (λ _, mret tt).

Definition ready_again (ws : nat) (connectionId : string) : handler unit :=
  connection ← activeConnections_get connectionId;
  match connection with
  | Some c =>
      modify (assign c (set_isListening true));;
      send ws (ready_for_input "Ready for your question")
  | None => mret tt
  end.

(** *** handleEndConversation *)

Definition handleEndConversation (ws : nat) (connectionId : string) : handler unit :=
  try_catch
    (connection ← activeConnections_get connectionId;
     match connection with
     | Some c =>
         modify (assign c (set_isListening false));;
         modify (assign c (set_chat null));;
         modify (assign c (set_model null))
     | None => mret tt
     end;;
     send ws (conversation_ended "Conversation ended. Thanks for choosing Revolt Motors!"))
    (λ _, mret tt).

(** *** ws.on('message') *)

Definition message_failed (ws : nat) : string → handler unit :=
  λ _, send ws (error "Failed to process message").

(** The [natural_interrupt] case calls [handleNaturalInterrupt], which
    server.js does not define: evaluating the name throws a
    [ReferenceError]. *)
Definition on_message (ws : nat) (connectionId : string) (message : parse_result)
    : handler unit :=
  try_catch
    (data ← JSON_parse message;
     activeConnections_get connectionId;;
     tag ← data_type data;
     if tag_is tag "start_conversation" then
       handleStartConversation ws connectionId
     else if tag_is tag "audio_data" then
       handleAudioData ws connectionId (property data "audio")
     else if tag_is tag "natural_interrupt" then
       throw "handleNaturalInterrupt is not defined"
     else if tag_is tag "end_conversation" then
       handleEndConversation ws connectionId
     else mret tt)
    (message_failed ws).

(** A continuation of a message handler runs inside the [try] of
    [on_message] as well. *)
Definition resumed (ws : nat) (m : handler unit) : handler unit :=
  try_catch m (message_failed ws).

(** *** The callbacks of a socket *)

Inductive event :=
| connection_event (ws : nat) (connectionId : string)
| message_event (ws : nat) (message : parse_result)
| close_event (ws : nat)
| error_event (ws : nat).

(** [wss.on('connection')]: [connectionId] is the random string drawn;
    [ws] is a socket never seen before. *)
Definition on_connection (ws : nat) (connectionId : string) (st : state) : state :=
  {| objects := <[ws := fresh]> (objects st);
     activeConnections := <[connectionId := ws]> (activeConnections st);
     sockets := <[ws := (connectionId, OPEN)]> (sockets st) |}.

(** [ws.on('close')] and [ws.on('error')]:
    [activeConnections.delete(connectionId)]. *)
Definition on_end (ws : nat) (connectionId : string) (rs : ready_state) (st : state)
    : state :=
  {| objects := objects st;
     activeConnections := delete connectionId (activeConnections st);
     sockets := <[ws := (connectionId, rs)]> (sockets st) |}.

Definition quiet (st : state) : outcome state cont := Outcome st [] None None.

Definition on_event (e : event) (st : state) : option (outcome state cont) :=
  match e with
  | connection_event ws connectionId =>
      match sockets st !! ws with
      | None => Some (quiet (on_connection ws connectionId st))
      | Some _ => None
      end
  | message_event ws message =>
      match sockets st !! ws with
      | Some (connectionId, OPEN) => Some (segment (on_message ws connectionId message) st)
      | _ => None
      end
  | close_event ws =>
      match sockets st !! ws with
      | Some (connectionId, OPEN) | Some (connectionId, CLOSING) =>
          Some (quiet (on_end ws connectionId CLOSED st))
      | _ => None
      end
  | error_event ws =>
      match sockets st !! ws with
      | Some (connectionId, OPEN) => Some (quiet (on_end ws connectionId CLOSING st))
      | _ => None
      end
  end.

Definition on_wake (k : cont) (v : wake) (st : state) : option (outcome state cont) :=
  match k with
  | greeting_reply ws c =>
      m ← greeting_arrived ws c v; Some (segment (resumed ws m) st)
  | stt_result ws c =>
      m ← transcribed ws c v; Some (segment (resumed ws m) st)
  | provider_reply ws c transcribedText =>
      m ← replied ws c transcribedText v; Some (segment (resumed ws m) st)
  | speaking_timer ws c =>
      match v with
      | Elapsed => Some (segment (finished_speaking ws c) st)
      | _ => None
      end
  | ready_timer ws connectionId =>
      match v with
      | Elapsed => Some (segment (ready_again ws connectionId) st)
      | _ => None
      end
  end.

Abbreviation world := (@world state cont).
Abbreviation action := (@action event).

Definition boot : world :=
  {| w_state := initial; w_pending := ∅; w_log := []; w_next := 0; w_unhandled := [] |}.

Definition exec : world → list action → world := run on_event on_wake.
Definition can : world → list action → bool := feasible on_event on_wake.

End Server.

(** ** part_000: the VoiceSession class *)

Module Voice.

(** [class VoiceSession]; [history] keeps the [response] of every entry
    pushed.  [this.ws] is the socket the object is stored under. *)
Record VoiceSession := Build {
  chat : ref;
  isActive : bool;
  history : list string
}.

(** [new VoiceSession(ws)] *)
Definition constructor : VoiceSession :=
  {| chat := null; isActive := false; history := [] |}.

Definition set_chat (r : ref) (o : VoiceSession) : VoiceSession :=
  {| chat := r; isActive := isActive o; history := history o |}.
Definition set_isActive (b : bool) (o : VoiceSession) : VoiceSession :=
  {| chat := chat o; isActive := b; history := history o |}.
Definition history_push (response : string) (o : VoiceSession) : VoiceSession :=
  {| chat := chat o; isActive := isActive o; history := history o ++ [response] |}.

(** The session objects (by socket; the callbacks of a socket close over
    their object), the [sessions] map and the transport state. *)
Record state := State {
  objects : gmap nat VoiceSession;
  sessions : gmap nat nat;
  sockets : gmap nat ready_state
}.

Definition initial : state := {| objects := ∅; sessions := ∅; sockets := ∅ |}.

Definition deref (st : state) (c : nat) : VoiceSession :=
  default constructor (objects st !! c).

Definition assign (c : nat) (f : VoiceSession → VoiceSession) (st : state) : state :=
  {| objects := alter f c (objects st); sessions := sessions st; sockets := sockets st |}.

Inductive cont :=
| audio_result (ws : nat).

Abbreviation handler := (js state cont).

Definition read {A} (c : nat) (f : VoiceSession → A) : handler A :=
  st ← get_state; mret (f (deref st c)).

Definition startConversation (ws : nat) : handler unit :=
  try_catch
    (modify (assign ws (set_chat object));;
     modify (assign ws (set_isActive true));;
     send ws (conversation_started "Ready to chat! I can speak in multiple Indian languages."))
    (λ e, send ws (error ("Failed to start conversation: " +:+ e))).

Definition handleStartConversation (ws : nat) : handler unit :=
  try_catch (startConversation ws)
            (λ _, send ws (error "Failed to start conversation")).

(** [Buffer.from(audioData, 'base64')] on what [JSON.parse] can give.
    A string or an array is accepted.  On an object, Node first calls
    [value.valueOf]: an own [valueOf] that is truthy is no function, and
    the call throws; then an object with a [length] is copied as
    array-like (empty when the length is no number or not positive), and
    so is the [data] of a serialised Buffer.  A length that no typed
    array can have is a [RangeError]; below that the allocation is taken
    to succeed.  Anything else is a [TypeError] that names what was
    received. *)
Definition json_truthy (v : json) : bool :=
  match v with
  | JNull => false
  | JBool b => b
  | JNum z => negb (z =? 0)%Z
  | JStr s => negb (String.eqb s "")
  | JArr _ | JObj _ => true
  end.

(** [Number.MAX_SAFE_INTEGER], the largest length of a typed array. *)
Definition max_length : Z := (2 ^ 53 - 1)%Z.

Definition calls_valueOf (fields : list (string * json)) : bool :=
  match own_property fields "valueOf" with
  | Some v => json_truthy v
  | None => false
  end.

Definition fromObject (fields : list (string * json)) : option bool :=
  match own_property fields "length" with
  | Some (JNum z) => Some (z <? max_length)%Z
  | Some _ => Some true
  | None =>
      if tag_is (own_property fields "type") "Buffer" &&
         match own_property fields "data" with Some (JArr _) => true | _ => false end
      then Some true
      else None
  end.

Definition Buffer_accepts (audioData : option json) : bool :=
  match audioData with
  | Some (JStr _) | Some (JArr _) => true
  | Some (JObj fields) =>
      negb (calls_valueOf fields) && default false (fromObject fields)
  | _ => false
  end.

Definition received (audioData : option json) : string :=
  match audioData with
  | None => "undefined"
  | Some JNull => "null"
  | Some (JBool b) => "type boolean (" +:+ (if b then "true" else "false") +:+ ")"
  | Some (JNum z) => "type number (" +:+ pretty z +:+ ")"
  | _ => "an instance of Object"
  end.

Definition Buffer_error (audioData : option json) : string :=
  match audioData with
  | Some (JObj fields) =>
      if calls_valueOf fields then "value.valueOf is not a function"
      else match fromObject fields with
           | Some _ => "Array buffer allocation failed"
           | None =>
               "The first argument must be of type string or an instance of Buffer, ArrayBuffer, or Array or an Array-like Object. Received "
               +:+ received audioData
           end
  | _ =>
      "The first argument must be of type string or an instance of Buffer, ArrayBuffer, or Array or an Array-like Object. Received "
      +:+ received audioData
  end.

Definition Buffer_from (audioData : option json) : handler unit :=
  if Buffer_accepts audioData then mret tt
  else throw (Buffer_error audioData).

(** [processAudio] up to [await this.chat.sendMessage([...])]. *)
Definition processAudio (ws : nat) (audioData mimeType : option json) : handler string :=
  active ← read ws isActive;
  ch ← read ws chat;
  if negb (active : bool) || negb (truthy (ch : ref)) then
    throw "Conversation not active"
  else
    try_catch
      (Buffer_from audioData;;
       emit (SendMessage ws (Audio audioData mimeType));;
       await (audio_result ws))
      (λ e, throw e).

(** [processAudio] from the provider's answer to its [return]. *)
Definition processAudio_resumed (ws : nat) (v : wake) : option (handler string) :=
  match v with
  | Fulfilled responseText =>
      Some (try_catch
              (modify (assign ws (history_push responseText));;
               mret responseText)
              (λ e, throw e))
  | Blocked e | Rejected e => Some (try_catch (throw e) (λ e, throw e))
  | Elapsed => None
  end.

Definition audio_failed (ws : nat) : string → handler unit :=
  λ e, send ws (error ("Failed to process audio: " +:+ e)).

Definition handleAudioData (ws : nat) (data : json) : handler unit :=
  try_catch
    (text ← processAudio ws (property data "audio") (property data "mimeType");
     send ws (ai_response text None))
    (audio_failed ws).

Definition handleAudioData_resumed (ws : nat) (v : wake) : option (handler unit) :=
  m ← processAudio_resumed ws v;
  Some (try_catch (text ← m; send ws (ai_response text None)) (audio_failed ws)).

Definition handleNaturalInterrupt (ws : nat) : handler unit :=
  send ws (natural_interrupt_confirmed "AI stopped, ready for new input").

Definition endConversation (c : nat) : handler unit :=
  modify (assign c (set_isActive false));;
  modify (assign c (set_chat null)).

Definition handleEndConversation (ws : nat) : handler unit :=
  endConversation ws;;
  send ws (conversation_ended "Conversation ended successfully").

Definition message_failed (ws : nat) : string → handler unit :=
  λ e, send ws (error ("Server error: " +:+ e)).

Definition on_message (ws : nat) (message : parse_result) : handler unit :=
  try_catch
    (data ← JSON_parse message;
     tag ← data_type data;
     if tag_is tag "start_conversation" then handleStartConversation ws
     else if tag_is tag "audio_data" then handleAudioData ws data
     else if tag_is tag "natural_interrupt" then handleNaturalInterrupt ws
     else if tag_is tag "end_conversation" then handleEndConversation ws
     else mret tt)
    (message_failed ws).

Definition resumed (ws : nat) (m : handler unit) : handler unit :=
  try_catch m (message_failed ws).

Inductive event :=
| connection_event (ws : nat)
| message_event (ws : nat) (message : parse_result)
| close_event (ws : nat)
| error_event (ws : nat).

Definition on_connection (ws : nat) (st : state) : state :=
  {| objects := <[ws := constructor]> (objects st);
     sessions := <[ws := ws]> (sessions st);
     sockets := <[ws := OPEN]> (sockets st) |}.

Definition set_ready_state (ws : nat) (rs : ready_state) (st : state) : state :=
  {| objects := objects st; sessions := sessions st; sockets := <[ws := rs]> (sockets st) |}.

(** [ws.on('close')] *)
Definition on_close (ws : nat) : handler unit :=
  st ← get_state;
  match sessions st !! ws with
  | Some c =>
      endConversation c;;
      modify (λ st, {| objects := objects st;
                       sessions := delete ws (sessions st);
                       sockets := sockets st |})
  | None => mret tt
  end;;
  modify (set_ready_state ws CLOSED).

Definition on_event (e : event) (st : state) : option (outcome state cont) :=
  match e with
  | connection_event ws =>
      match sockets st !! ws with
      | None => Some (Outcome (on_connection ws st) [] None None)
      | Some _ => None
      end
  | message_event ws message =>
      match sockets st !! ws with
      | Some OPEN => Some (segment (on_message ws message) st)
      | _ => None
      end
  | close_event ws =>
      match sockets st !! ws with
      | Some OPEN | Some CLOSING => Some (segment (on_close ws) st)
      | _ => None
      end
  | error_event ws =>
      match sockets st !! ws with
      | Some OPEN => Some (Outcome (set_ready_state ws CLOSING st) [] None None)
      | _ => None
      end
  end.

Definition on_wake (k : cont) (v : wake) (st : state) : option (outcome state cont) :=
  match k with
  | audio_result ws =>
      m ← handleAudioData_resumed ws v; Some (segment (resumed ws m) st)
  end.

Abbreviation world := (@world state cont).
Abbreviation action := (@action event).

Definition boot : world :=
  {| w_state := initial; w_pending := ∅; w_log := []; w_next := 0; w_unhandled := [] |}.

Definition exec : world → list action → world := run on_event on_wake.
Definition can : world → list action → bool := feasible on_event on_wake.

End Voice.

(** ** part_001: the live session in closure variables *)

Module Live.

(** [let liveSession = null; let isSessionActive = false;] of one
    [connection] callback. *)
Record closure := Closure {
  liveSession : ref;
  isSessionActive : bool
}.

Definition entered : closure := {| liveSession := null; isSessionActive := false |}.

Definition set_liveSession (r : ref) (o : closure) : closure :=
  {| liveSession := r; isSessionActive := isSessionActive o |}.
Definition set_isSessionActive (b : bool) (o : closure) : closure :=
  {| liveSession := liveSession o; isSessionActive := b |}.

Record state := State {
  closures : gmap nat closure;
  sockets : gmap nat ready_state
}.

Definition initial : state := {| closures := ∅; sockets := ∅ |}.

Definition deref (st : state) (ws : nat) : closure :=
  default entered (closures st !! ws).

Definition assign (ws : nat) (f : closure → closure) (st : state) : state :=
  {| closures := alter f ws (closures st); sockets := sockets st |}.

Inductive cont :=
| end_returned (ws : nat)
| text_result (ws : nat).

Abbreviation handler := (js state cont).

Definition read {A} (ws : nat) (f : closure → A) : handler A :=
  st ← get_state; mret (f (deref st ws)).

(** [if (liveSession && isSessionActive)] *)
Definition active (o : closure) : bool := truthy (liveSession o) && isSessionActive o.

Definition startLiveSession (ws : nat) : handler unit :=
  try_catch
    (modify (assign ws (set_liveSession object));;
     modify (assign ws (set_isSessionActive true));;
     send ws (session_started "Hello! I'm Rev, your Revolt Motors assistant. How can I help you with our electric motorcycles today?"))
    (λ e, send ws (error ("Failed to start live session: " +:+ e))).

Definition handleAudioData (ws : nat) : handler unit :=
  try_catch
    (send ws (processing_audio "Processing your voice input..."))
    (λ e, send ws (error ("Failed to process audio: " +:+ e))).

Definition input_failed (ws : nat) : string → handler unit :=
  λ e, send ws (error ("Failed to process input: " +:+ e)).

Definition handleTextInput (ws : nat) (text : option json) : handler unit :=
  try_catch
    (emit (SendMessage ws (Text text));;
     await (text_result ws))
    (input_failed ws).

Definition handleTextInput_resumed (ws : nat) (v : wake) : option (handler unit) :=
  match v with
  | Fulfilled responseText =>
      Some (try_catch
              (send ws (text_response responseText);;
               send ws (tts_request responseText))
              (input_failed ws))
  | Blocked e | Rejected e => Some (try_catch (throw e) (input_failed ws))
  | Elapsed => None
  end.

Definition handleInterruption (ws : nat) : handler unit :=
  try_catch (send ws interruption_handled) (λ _, mret tt).

Definition endLiveSession (ws : nat) : handler unit :=
  try_catch (modify (assign ws (set_isSessionActive false))) (λ _, mret tt).

Definition message_failed (ws : nat) : string → handler unit :=
  λ e, send ws (error e).

Definition on_message (ws : nat) (message : parse_result) : handler unit :=
  try_catch
    (data ← JSON_parse message;
     tag ← data_type data;
     o ← read ws id;
     if tag_is tag "start_session" then startLiveSession ws
     else if tag_is tag "audio_data" then
       if active o then handleAudioData ws else mret tt
     else if tag_is tag "text_input" then
       if active o then handleTextInput ws (property data "text") else mret tt
     else if tag_is tag "end_session" then
       if truthy (liveSession o) then
         endLiveSession ws;;
         await (end_returned ws)
       else mret tt
     else if tag_is tag "interrupt" then
       if active o then handleInterruption ws else mret tt
     else mret tt)
    (message_failed ws).

(** After [await endLiveSession(liveSession)]:
    [liveSession = null; isSessionActive = false;]. *)
Definition end_session_resumed (ws : nat) (v : wake) : option (handler unit) :=
  match v with
  | Fulfilled _ =>
      Some (modify (assign ws (set_liveSession null));;
            modify (assign ws (set_isSessionActive false)))
  | _ => None
  end.

Definition resumed (ws : nat) (m : handler unit) : handler unit :=
  try_catch m (message_failed ws).

Inductive event :=
| connection_event (ws : nat)
| message_event (ws : nat) (message : parse_result)
| close_event (ws : nat)
| error_event (ws : nat).

Definition on_connection (ws : nat) (st : state) : state :=
  {| closures := <[ws := entered]> (closures st);
     sockets := <[ws := OPEN]> (sockets st) |}.

Definition set_ready_state (ws : nat) (rs : ready_state) (st : state) : state :=
  {| closures := closures st; sockets := <[ws := rs]> (sockets st) |}.

(** [ws.on('close')] *)
Definition on_close (ws : nat) : handler unit :=
  live ← read ws liveSession;
  (if truthy (live : ref) then endLiveSession ws else mret tt);;
  modify (set_ready_state ws CLOSED).

Definition on_event (e : event) (st : state) : option (outcome state cont) :=
  match e with
  | connection_event ws =>
      match sockets st !! ws with
      | None => Some (Outcome (on_connection ws st) [] None None)
      | Some _ => None
      end
  | message_event ws message =>
      match sockets st !! ws with
      | Some OPEN => Some (segment (on_message ws message) st)
      | _ => None
      end
  | close_event ws =>
      match sockets st !! ws with
      | Some OPEN | Some CLOSING => Some (segment (on_close ws) st)
      | _ => None
      end
  | error_event ws =>
      match sockets st !! ws with
      | Some OPEN => Some (Outcome (set_ready_state ws CLOSING st) [] None None)
      | _ => None
      end
  end.

Definition on_wake (k : cont) (v : wake) (st : state) : option (outcome state cont) :=
  match k with
  | end_returned ws =>
      m ← end_session_resumed ws v; Some (segment (resumed ws m) st)
  | text_result ws =>
      m ← handleTextInput_resumed ws v; Some (segment (resumed ws m) st)
  end.

Abbreviation world := (@world state cont).
Abbreviation action := (@action event).

Definition boot : world :=
  {| w_state := initial; w_pending := ∅; w_log := []; w_next := 0; w_unhandled := [] |}.

Definition exec : world → list action → world := run on_event on_wake.
Definition can : world → list action → bool := feasible on_event on_wake.

End Live.

(** ** Sample traffic *)

(** The frame [{"type": type}]. *)
Definition typed (type : string) : parse_result :=
  Parsed (JObj [("type", JStr type)]).

(** One client of server.js: it connects (socket 0, id drawn ["k3x9q2m1z"]),
    starts a conversation (task 1) and the greeting is answered: the
    assistant is speaking. *)
Definition greeted : list Server.action :=
  [ Arrive (Server.connection_event 0 "k3x9q2m1z");
    Arrive (Server.message_event 0 (typed "start_conversation"));
    Wake 1 (Fulfilled "Namaste!") ].

(** The estimated speaking time of the greeting has elapsed. *)
Definition listening : list Server.action :=
  greeted ++ [ Wake 1 Elapsed ].

(** Then a first user turn (task 2) is transcribed and sent to the
    provider, and a second one (task 3) arrives and is sent too while the
    first call is in flight. *)
Definition first_turn_in_flight : list Server.action :=
  listening ++
  [ Arrive (Server.message_event 0 (typed "audio_data"));
    Wake 2 (Fulfilled "What's the top speed?") ].

Definition two_turns_in_flight : list Server.action :=
  first_turn_in_flight ++
  [ Arrive (Server.message_event 0 (typed "audio_data"));
    Wake 3 (Fulfilled "How long does charging take?") ].

(** ** Properties of states and of tasks *)

(** The [case] labels of the [switch] in server.js. *)
Definition recognized (tag : option json) : bool :=
  tag_is tag "start_conversation" || tag_is tag "audio_data" ||
  tag_is tag "natural_interrupt" || tag_is tag "end_conversation".

(** The [connectionId]s a schedule draws, in order. *)
Definition drawn (a : Server.action) : list string :=
  match a with
  | Arrive (Server.connection_event _ connectionId) => [connectionId]
  | _ => []
  end.

Definition ids_drawn (schedule : list Server.action) : list string :=
  schedule ≫= drawn.

(** [st'] has the sockets and the entries of [st]. *)
Definition same_registry (st st' : Server.state) : Prop :=
  Server.sockets st' = Server.sockets st ∧
  Server.activeConnections st' = Server.activeConnections st.

(** The effects of a task begin with the interruption and hold no
    other. *)
Definition interrupted_first (ws : nat) (k : option Server.cont) (fr : list effect) : Prop :=
  ∃ rest,
    fr = Send ws (natural_interrupt "AI stopped due to user voice input") :: rest ∧
    Forall (λ e, is_interrupt e = false) rest.

(** A handler suspended at the provider call of a user turn holds a
    connection object that exists. *)
Definition calls_allocated (w : Server.world) : Prop :=
  ∀ t ws c text, w_pending w !! t = Some (Server.provider_reply ws c text) →
                 is_Some (Server.objects (w_state w) !! c).

(** Entries and open sockets correspond, and no two sockets share an id,
    as long as every id was drawn once ([seen] holds the ids drawn). *)
Definition registry_inv (st : Server.state) (seen : list string) : Prop :=
  (∀ id ws, Server.activeConnections st !! id = Some ws →
            Server.sockets st !! ws = Some (id, OPEN)) ∧
  (∀ ws id, Server.sockets st !! ws = Some (id, OPEN) →
            Server.activeConnections st !! id = Some ws) ∧
  (∀ ws id rs, Server.sockets st !! ws = Some (id, rs) → id ∈ seen) ∧
  (∀ ws ws' id rs rs', Server.sockets st !! ws = Some (id, rs) →
                       Server.sockets st !! ws' = Some (id, rs') → ws = ws').


(** Every task so far satisfies [P]. *)
Definition shaped {St K : Type} (P : option K → list effect → Prop)
    (w : @world St K) : Prop :=
  tidy w ∧ ∀ t, t < w_next w → holds_for P t w.

(** ** What one message can cause in server.js *)

(** A user turn starts with the interruption, or does not. *)
Definition audio_prefix (ws : nat) (pre : list effect) : Prop :=
  pre = [] ∨ ∃ m, pre = [Send ws (natural_interrupt m)].

(** The sequences of effects of one task of server.js, with the
    suspension it is in. *)
Inductive server_shape : option Server.cont → list effect → Prop :=
| shape_silent : server_shape None []
| shape_error ws m : server_shape None [Send ws (error m)]
| shape_ended ws m : server_shape None [Send ws (conversation_ended m)]
| shape_started ws c m :
    server_shape (Some (Server.greeting_reply ws c))
      [Send ws (conversation_started m); SendMessage c Greeting]
| shape_start_failed ws c m e :
    server_shape None
      [Send ws (conversation_started m); SendMessage c Greeting; Send ws (error e)]
| shape_greeting ws c m r :
    server_shape (Some (Server.speaking_timer ws c))
      [Send ws (conversation_started m); SendMessage c Greeting;
       Send ws (ai_response r None)]
| shape_greeting_cut ws c m r :
    server_shape None
      [Send ws (conversation_started m); SendMessage c Greeting;
       Send ws (ai_response r None)]
| shape_greeting_spoken ws c m r :
    server_shape None
      [Send ws (conversation_started m); SendMessage c Greeting;
       Send ws (ai_response r None); Send ws ai_finished_speaking]
| shape_heard ws c pre :
    audio_prefix ws pre →
    server_shape (Some (Server.stt_result ws c)) pre
| shape_not_asked ws pre e :
    audio_prefix ws pre →
    server_shape None (pre ++ [Send ws (error e)])
| shape_asked ws c pre text :
    audio_prefix ws pre → text ∈ Server.sampleQueries →
    server_shape (Some (Server.provider_reply ws c text))
      (pre ++ [SendMessage c (Transcript text)])
| shape_failed ws c pre text e :
    audio_prefix ws pre → text ∈ Server.sampleQueries →
    server_shape None
      (pre ++ [SendMessage c (Transcript text); Send ws (error e)])
| shape_answer ws c pre text r :
    audio_prefix ws pre → text ∈ Server.sampleQueries →
    server_shape (Some (Server.speaking_timer ws c))
      (pre ++ [SendMessage c (Transcript text); Send ws (ai_response r (Some text))])
| shape_answer_cut ws c pre text r :
    audio_prefix ws pre → text ∈ Server.sampleQueries →
    server_shape None
      (pre ++ [SendMessage c (Transcript text); Send ws (ai_response r (Some text))])
| shape_answer_spoken ws c pre text r :
    audio_prefix ws pre → text ∈ Server.sampleQueries →
    server_shape None
      (pre ++ [SendMessage c (Transcript text); Send ws (ai_response r (Some text));
               Send ws ai_finished_speaking]).

Definition is_finished_speaking (e : effect) : bool :=
  match e with Send _ ai_finished_speaking => true | _ => false end.

(** ** part_000 and part_001: states and logs *)

(** [isActive] and [chat] of every session object go together. *)
Definition voice_consistent (st : Voice.state) : Prop :=
  ∀ ws o, Voice.objects st !! ws = Some o → Voice.isActive o = truthy (Voice.chat o).

(** The [sessions] map holds the sockets that are not closed, each with
    its own object; the session of a closed socket is ended. *)
Definition voice_registry (st : Voice.state) : Prop :=
  (∀ ws c, Voice.sessions st !! ws = Some c →
           c = ws ∧ (Voice.sockets st !! ws = Some OPEN ∨
                     Voice.sockets st !! ws = Some CLOSING)) ∧
  (∀ ws, Voice.sockets st !! ws = Some OPEN ∨ Voice.sockets st !! ws = Some CLOSING →
         Voice.sessions st !! ws = Some ws) ∧
  (∀ ws, Voice.sockets st !! ws = Some CLOSED →
         Voice.isActive (Voice.deref st ws) = false ∧
         Voice.chat (Voice.deref st ws) = null).

(** A session is live in part_001 only with a chat. *)
Definition live_consistent (st : Live.state) : Prop :=
  ∀ ws o, Live.closures st !! ws = Some o →
          Live.isSessionActive o = true → Live.liveSession o = object.

(** The [ai_response] frames written to socket [ws]. *)
Definition is_response_on (ws : nat) (e : effect) : bool :=
  match e with
  | Send ws' (ai_response _ _) => bool_decide (ws' = ws)
  | _ => false
  end.

Definition responses_on (ws : nat) (log : list (nat * effect)) : nat :=
  length (filter (λ p, is_response_on ws p.2 = true) log).

(** The session objects are those of the sockets seen, a suspended turn
    has its object, and the [history] of an object has one entry for
    every [ai_response] written to its socket. *)
Definition voice_ledger (w : Voice.world) : Prop :=
  (∀ ws, Voice.objects (w_state w) !! ws = None ↔ Voice.sockets (w_state w) !! ws = None) ∧
  (∀ t ws, w_pending w !! t = Some (Voice.audio_result ws) →
           is_Some (Voice.objects (w_state w) !! ws)) ∧
  (∀ ws, Voice.objects (w_state w) !! ws = None → responses_on ws (w_log w) = 0) ∧
  (∀ ws o, Voice.objects (w_state w) !! ws = Some o →
           length (Voice.history o) = responses_on ws (w_log w)).

(** What a resumed handler shows of itself: the objects it leaves, its
    effects, and how it ends. *)
Definition visible (o : outcome Server.state Server.cont) :=
  (Server.objects (o_state o), o_effects o, o_pending o, o_rejected o).

(** The sequences of effects of one task of part_001. *)
Inductive live_shape : option Live.cont → list effect → Prop :=
| live_silent : live_shape None []
| live_error ws e : live_shape None [Send ws (error e)]
| live_started ws m : live_shape None [Send ws (session_started m)]
| live_heard ws m : live_shape None [Send ws (processing_audio m)]
| live_interrupted ws : live_shape None [Send ws interruption_handled]
| live_ending ws : live_shape (Some (Live.end_returned ws)) []
| live_asked ws text :
    live_shape (Some (Live.text_result ws)) [SendMessage ws (Text text)]
| live_answered ws text r :
    live_shape None
      [SendMessage ws (Text text); Send ws (text_response r); Send ws (tts_request r)]
| live_failed ws text e :
    live_shape None [SendMessage ws (Text text); Send ws (error e)].


(** * Proofs *)

(** ** The model at work *)

(** [start_conversation]: the acknowledgement, the greeting sent to the
    provider, its answer relayed, and the end of speaking. *)
Example start_then_greeting :
  Server.can Server.boot listening = true ∧
  w_log (Server.exec Server.boot listening)
  = [ (1, Send 0 (conversation_started "Ready to chat about Revolt Motors!"));
      (1, SendMessage 0 Greeting);
      (1, Send 0 (ai_response "Namaste!" None));
      (1, Send 0 ai_finished_speaking) ] ∧
  Server.session (w_state (Server.exec Server.boot listening)) 0
  = Some {| Server.isListening := true; Server.isSpeaking := Some false;
            Server.model := object; Server.chat := object |}.
Proof. vm_compute. done. Qed.

(** One user turn, answered while nothing else happens. *)
Example one_turn :
  effects_of 2 (w_log (Server.exec Server.boot
                         (first_turn_in_flight ++ [Wake 2 (Fulfilled "85 kmph"); Wake 2 Elapsed])))
  = [ SendMessage 0 (Transcript "What's the top speed?");
      Send 0 (ai_response "85 kmph" (Some "What's the top speed?"));
      Send 0 ai_finished_speaking ].
Proof. vm_compute. done. Qed.

(** A transcription that is none of the sample queries cannot arrive, and
    a socket cannot be closed twice. *)
Example not_enabled :
  Server.can Server.boot
    (listening ++ [ Arrive (Server.message_event 0 (typed "audio_data"));
                    Wake 2 (Fulfilled "Hello?") ]) = false ∧
  Server.can Server.boot
    (listening ++ [ Arrive (Server.close_event 0); Arrive (Server.close_event 0) ]) = false.
Proof. vm_compute. done. Qed.

(** A response that cannot be read is reported like a failed call, after
    [isSpeaking] was set. *)
Example blocked_reply :
  let s := first_turn_in_flight ++ [ Wake 2 (Blocked "Response was blocked due to SAFETY") ] in
  effects_of 2 (w_log (Server.exec Server.boot s))
  = [ SendMessage 0 (Transcript "What's the top speed?");
      Send 0 (error "Failed to process audio") ] ∧
  Server.isSpeaking <$> Server.session (w_state (Server.exec Server.boot s)) 0
  = Some (Some true) ∧
  w_pending (Server.exec Server.boot s) = ∅.
Proof. vm_compute. done. Qed.

(** part_000: a turn is answered and kept in [history]. *)
Example voice_turn :
  let s := [ Arrive (Voice.connection_event 0);
             Arrive (Voice.message_event 0 (typed "start_conversation"));
             Arrive (Voice.message_event 0
                       (Parsed (JObj [("type", JStr "audio_data");
                                      ("audio", JStr "UklGRg==");
                                      ("mimeType", JStr "audio/webm")])));
             Wake 2 (Fulfilled "Namaste!") ] in
  Voice.can Voice.boot s = true ∧
  w_log (Voice.exec Voice.boot s)
  = [ (1, Send 0 (conversation_started
                    "Ready to chat! I can speak in multiple Indian languages."));
      (2, SendMessage 0 (Audio (Some (JStr "UklGRg==")) (Some (JStr "audio/webm"))));
      (2, Send 0 (ai_response "Namaste!" None)) ] ∧
  Voice.history (Voice.deref (w_state (Voice.exec Voice.boot s)) 0) = ["Namaste!"].
Proof. vm_compute. done. Qed.

(** part_001: text in, text and a speech request out. *)
Example live_turn :
  let s := [ Arrive (Live.connection_event 0);
             Arrive (Live.message_event 0 (typed "start_session"));
             Arrive (Live.message_event 0
                       (Parsed (JObj [("type", JStr "text_input");
                                      ("text", JStr "price?")])));
             Wake 2 (Fulfilled "From 1.2 lakhs") ] in
  Live.can Live.boot s = true ∧
  effects_of 2 (w_log (Live.exec Live.boot s))
  = [ SendMessage 0 (Text (Some (JStr "price?")));
      Send 0 (text_response "From 1.2 lakhs");
      Send 0 (tts_request "From 1.2 lakhs") ].
Proof. vm_compute. done. Qed.

(** ** What every schedule preserves *)

Section EventLoopFacts.
Context {St K Ev : Type}.
Variable on_event : Ev → St → option (outcome St K).
Variable on_wake : K → wake → St → option (outcome St K).

Abbreviation step' := (step on_event on_wake).
Abbreviation run' := (run on_event on_wake).

Lemma run_cons (w : world) (a : action) (s : list action) :
  run' w (a :: s) = run' (default w (step' w a)) s.
Proof. reflexivity. Qed.

Lemma step_arrive (w : world) (e : Ev) (o : outcome St K) :
  on_event e (w_state w) = Some o →
  step' w (Arrive e) = Some (commit (w_next w) o (w_pending w) w (S (w_next w))).
Proof. intros Ho. unfold step. by rewrite Ho. Qed.

Lemma step_wake (w : world) (t : nat) (v : wake) (k : K) (o : outcome St K) :
  w_pending w !! t = Some k → on_wake k v (w_state w) = Some o →
  step' w (Wake t v) = Some (commit t o (delete t (w_pending w)) w (w_next w)).
Proof. intros Hk Ho. unfold step. rewrite Hk. simpl. by rewrite Ho. Qed.

Lemma effects_of_app (t : nat) (l1 l2 : list (nat * effect)) :
  effects_of t (l1 ++ l2) = effects_of t l1 ++ effects_of t l2.
Proof. unfold effects_of. by rewrite filter_app, fmap_app. Qed.

Lemma effects_of_own (t : nat) (out : list effect) :
  effects_of t ((λ e, (t, e)) <$> out) = out.
Proof.
  unfold effects_of. induction out as [|e out IH]; [done|].
  rewrite fmap_cons, filter_cons_True by done. simpl. by f_equal.
Qed.

Lemma effects_of_other (t t' : nat) (out : list effect) :
  t ≠ t' → effects_of t ((λ e, (t', e)) <$> out) = [].
Proof.
  intros Hne. unfold effects_of. induction out as [|e out IH]; [done|].
  rewrite fmap_cons, filter_cons_False; [done|]. simpl. congruence.
Qed.

Lemma effects_of_unused (t : nat) (log : list (nat * effect)) :
  (∀ t' e, (t', e) ∈ log → t' ≠ t) → effects_of t log = [].
Proof.
  intros H. unfold effects_of. induction log as [|[t' e] log IH]; [done|].
  rewrite filter_cons_False.
  - apply IH. intros t'' e' Hin. apply (H t'' e'). by right.
  - simpl. apply (H t' e). by left.
Qed.

Lemma tidy_step (w w' : world) (a : action) :
  tidy w → step' w a = Some w' → tidy w'.
Proof.
  intros [Hlog Hpend] Hstep. destruct a as [e|t v]; simpl in Hstep.
  - destruct (on_event e (w_state w)) as [o|]; simplify_eq/=. split; simpl.
    + intros t e' [Hin|Hin]%elem_of_app.
      * apply Hlog in Hin. lia.
      * apply list_elem_of_fmap in Hin as (? & ? & _). simplify_eq. lia.
    + intros t Hsome. destruct (o_pending o).
      * destruct (decide (t = w_next w)) as [->|Hne]; [lia|].
        rewrite lookup_insert_ne in Hsome by done. apply Hpend in Hsome. lia.
      * apply Hpend in Hsome. lia.
  - destruct (w_pending w !! t) as [k|] eqn:Hk; simplify_eq/=.
    destruct (on_wake k v (w_state w)) as [o|]; simplify_eq/=. split; simpl.
    + intros t' e' [Hin|Hin]%elem_of_app.
      * by apply Hlog in Hin.
      * apply list_elem_of_fmap in Hin as (? & ? & _). simplify_eq.
        apply Hpend. by rewrite Hk.
    + intros t' Hsome. destruct (decide (t' = t)) as [->|Hne].
      * apply Hpend. by rewrite Hk.
      * apply Hpend. destruct (o_pending o).
        -- by rewrite lookup_insert_ne, lookup_delete_ne in Hsome.
        -- by rewrite lookup_delete_ne in Hsome.
  Qed.

Lemma tidy_run (w : world) (s : list action) : tidy w → tidy (run' w s).
Proof.
  revert w. induction s as [|a s IH]; intros w Hw; [done|].
  rewrite run_cons. apply IH. destruct (step' w a) eqn:Hstep; [|done].
  simpl. by eapply tidy_step.
Qed.

(** A property [P] of a task (its suspension, its effects so far) that
    every wake-up of the task preserves is preserved by the whole loop:
    no other task touches it. *)
Section TaskLocal.
Variable P : option K → list effect → Prop.
Hypothesis P_wake : ∀ k v st o fr,
  P (Some k) fr → on_wake k v st = Some o → P (o_pending o) (fr ++ o_effects o).

Lemma task_local_step (w w' : world) (a : action) (t : nat) :
  t < w_next w → step' w a = Some w' → holds_for P t w → holds_for P t w'.
Proof.
  unfold holds_for. intros Hlt Hstep HP. destruct a as [e|t' v]; simpl in Hstep.
  - destruct (on_event e (w_state w)) as [o|]; simplify_eq/=.
    rewrite effects_of_app, effects_of_other, app_nil_r by lia.
    destruct (o_pending o); [rewrite lookup_insert_ne by lia|]; done.
  - destruct (w_pending w !! t') as [k|] eqn:Hk; simplify_eq/=.
    destruct (on_wake k v (w_state w)) as [o|] eqn:Ho; simplify_eq/=.
    rewrite effects_of_app. destruct (decide (t = t')) as [->|Hne].
    + rewrite effects_of_own. rewrite Hk in HP.
      pose proof (P_wake _ _ _ _ _ HP Ho) as HP'.
      destruct (o_pending o).
      * by rewrite lookup_insert_eq.
      * by rewrite lookup_delete_eq.
    + rewrite effects_of_other, app_nil_r by done.
      destruct (o_pending o).
      * by rewrite lookup_insert_ne, lookup_delete_ne.
      * by rewrite lookup_delete_ne.
Qed.

Lemma next_step (w w' : world) (a : action) :
  step' w a = Some w' → w_next w ≤ w_next w'.
Proof.
  intros Hstep. destruct a as [e|t v]; simpl in Hstep.
  - destruct (on_event e (w_state w)); simplify_eq/=. lia.
  - destruct (w_pending w !! t); simplify_eq/=.
    destruct (on_wake _ v (w_state w)); simplify_eq/=. lia.
Qed.

Lemma task_local_run (w : world) (s : list action) (t : nat) :
  t < w_next w → holds_for P t w → holds_for P t (run' w s).
Proof.
  revert w. induction s as [|a s IH]; intros w Hlt HP; [done|].
  rewrite run_cons. destruct (step' w a) as [w'|] eqn:Hstep; simpl.
  - apply IH.
    + apply next_step in Hstep. lia.
    + by eapply task_local_step.
  - by apply IH.
Qed.

(** The task started by an arriving event. *)
Lemma task_local_arrive (w w' : world) (e : Ev) (o : outcome St K) :
  tidy w → on_event e (w_state w) = Some o →
  step' w (Arrive e) = Some w' →
  P (o_pending o) (o_effects o) →
  holds_for P (w_next w) w'.
Proof.
  intros [Hlog Hpend] Ho Hstep HP. unfold holds_for.
  simpl in Hstep. rewrite Ho in Hstep. simplify_eq/=.
  rewrite effects_of_app, effects_of_own, effects_of_unused.
  - destruct (o_pending o) eqn:Hk.
    + by rewrite lookup_insert_eq.
    + destruct (w_pending w !! w_next w) eqn:Hp; [|done].
      assert (w_next w < w_next w); [|lia]. apply Hpend. by rewrite Hp.
  - intros t' e' Hin. apply Hlog in Hin. lia.
Qed.
End TaskLocal.
End EventLoopFacts.

Lemma errors_app (l1 l2 : list effect) : errors (l1 ++ l2) = errors l1 + errors l2.
Proof. unfold errors. by rewrite filter_app, length_app. Qed.

(** ** Exceptions stop at the handlers *)

Section DisciplineFacts.
Context {St K Ev : Type}.
Variable on_event : Ev → St → option (outcome St K).
Variable on_wake : K → wake → St → option (outcome St K).

Hypothesis event_disciplined : ∀ e st o, on_event e st = Some o → disciplined o.
Hypothesis wake_disciplined : ∀ k v st o, on_wake k v st = Some o → disciplined o.

Lemma quiet_so_far_wake k v st o fr :
  quiet_so_far (Some k) fr → on_wake k v st = Some o →
  quiet_so_far (o_pending o) (fr ++ o_effects o).
Proof.
  intros [_ Hzero] Ho. apply wake_disciplined in Ho as (_ & Hone & Hpend).
  unfold quiet_so_far. rewrite errors_app, Hzero by eauto. split; [done|].
  intros Hk. by rewrite Hpend.
Qed.

Lemma unhandled_step (w w' : world) (a : action) :
  step on_event on_wake w a = Some w' → w_unhandled w = [] → w_unhandled w' = [].
Proof.
  intros Hstep Hnil. destruct a as [e|t v]; simpl in Hstep.
  - destruct (on_event e (w_state w)) as [o|] eqn:Ho; simplify_eq/=.
    apply event_disciplined in Ho as (-> & _). done.
  - destruct (w_pending w !! t); simplify_eq/=.
    destruct (on_wake _ v (w_state w)) as [o|] eqn:Ho; simplify_eq/=.
    apply wake_disciplined in Ho as (-> & _). done.
Qed.

Lemma settled_step (w w' : world) (a : action) :
  settled w → step on_event on_wake w a = Some w' → settled w'.
Proof.
  intros (Htidy & Hun & Hall) Hstep. split; [by eapply tidy_step|].
  split; [by eapply unhandled_step|].
  intros t Hlt. destruct (decide (t < w_next w)) as [Hold|Hnew].
  - eapply task_local_step; eauto using quiet_so_far_wake.
  - destruct a as [e|t' v].
    + destruct (on_event e (w_state w)) as [o|] eqn:Ho;
        [|by simpl in Hstep; rewrite Ho in Hstep].
      assert (t = w_next w) as ->.
      { simpl in Hstep. rewrite Ho in Hstep. simplify_eq/=. lia. }
      eapply task_local_arrive; eauto.
      apply event_disciplined in Ho as (_ & ? & ?). by split.
    + simpl in Hstep. destruct (w_pending w !! t'); simplify_eq/=.
      destruct (on_wake _ v (w_state w)); simplify_eq/=. lia.
Qed.

Lemma settled_run (w : world) (s : list action) :
  settled w → settled (run on_event on_wake w s).
Proof.
  revert w. induction s as [|a s IH]; intros w Hw; [done|].
  rewrite run_cons. apply IH.
  destruct (step on_event on_wake w a) eqn:Hstep; [|done].
  simpl. by eapply settled_step.
Qed.

Lemma settled_errors (w : @world St K) (t : nat) :
  settled w → errors (effects_of t (w_log w)) ≤ 1.
Proof.
  intros ((Hlog & _) & _ & Hall). destruct (decide (t < w_next w)) as [Hlt|Hge].
  - by apply Hall.
  - rewrite effects_of_unused; [simpl; unfold errors; simpl; lia|].
    intros t' e Hin%Hlog. lia.
Qed.
End DisciplineFacts.

(** ** Segments, computed *)

Lemma tag_is_true (tag : option json) (label : string) :
  tag_is tag label = true → tag = Some (JStr label).
Proof.
  destruct tag as [[]|]; simpl; try done.
  intros ->%String.eqb_eq. done.
Qed.

Ltac run_handler :=
  repeat (progress unfold segment, JSON_parse, data_type, try_catch, send, emit,
            modify, get_state, await, throw, mbind, js_bind, mret, js_ret in *);
  simpl in *;
  repeat (case_match; simplify_eq/=).

Ltac discipline :=
  repeat split; simpl;
  try solve [ done | unfold errors; simpl; lia | intros [? ?]; done ].

Lemma disciplined_quiet {St K : Type} (st : St) :
  disciplined (Outcome st [] None None : outcome St K).
Proof. discipline. Qed.

Lemma server_event_disciplined e st o :
  Server.on_event e st = Some o → disciplined o.
Proof.
  destruct e as [ws connectionId|ws message|ws|ws]; simpl; intros Ho.
  - destruct (Server.sockets st !! ws); simplify_eq. apply disciplined_quiet.
  - destruct (Server.sockets st !! ws) as [[connectionId []]|]; simplify_eq.
    unfold Server.on_message, Server.handleStartConversation, Server.handleAudioData,
      Server.handleEndConversation, Server.activeConnections_get, Server.read,
      Server.message_failed, Server.start_failed, Server.audio_failed.
    run_handler; discipline.
  - destruct (Server.sockets st !! ws) as [[connectionId []]|]; simplify_eq;
      apply disciplined_quiet.
  - destruct (Server.sockets st !! ws) as [[connectionId []]|]; simplify_eq;
      apply disciplined_quiet.
Qed.

Lemma server_wake_disciplined k v st o :
  Server.on_wake k v st = Some o → disciplined o.
Proof.
  destruct k as [ws c|ws c|ws c text|ws c|ws connectionId]; simpl; intros Ho.
  - destruct v; simplify_eq/=;
      unfold Server.resumed, Server.message_failed, Server.start_failed;
      run_handler; discipline.
  - destruct v; simplify_eq/=. case_bool_decide; simplify_eq/=.
    unfold Server.resumed, Server.message_failed, Server.audio_failed, Server.read;
      run_handler; discipline.
  - destruct v; simplify_eq/=;
      unfold Server.resumed, Server.message_failed, Server.audio_failed;
      run_handler; discipline.
  - destruct v; simplify_eq/=.
    unfold Server.finished_speaking, Server.read; run_handler; discipline.
  - destruct v; simplify_eq/=.
    unfold Server.ready_again, Server.activeConnections_get; run_handler; discipline.
Qed.

Lemma voice_event_disciplined e st o :
  Voice.on_event e st = Some o → disciplined o.
Proof.
  destruct e as [ws|ws message|ws|ws]; simpl; intros Ho.
  - destruct (Voice.sockets st !! ws); simplify_eq. discipline.
  - destruct (Voice.sockets st !! ws) as [[]|]; simplify_eq.
    unfold Voice.on_message, Voice.handleStartConversation, Voice.startConversation,
      Voice.handleAudioData, Voice.processAudio, Voice.Buffer_from,
      Voice.handleNaturalInterrupt, Voice.handleEndConversation,
      Voice.endConversation, Voice.read, Voice.message_failed, Voice.audio_failed.
    run_handler; discipline.
  - destruct (Voice.sockets st !! ws) as [[]|]; simplify_eq;
      unfold Voice.on_close, Voice.endConversation; run_handler; discipline.
  - destruct (Voice.sockets st !! ws) as [[]|]; simplify_eq; discipline.
Qed.

Lemma voice_wake_disciplined k v st o :
  Voice.on_wake k v st = Some o → disciplined o.
Proof.
  destruct k as [ws]; simpl; intros Ho.
  destruct v; simplify_eq/=;
    unfold Voice.resumed, Voice.message_failed, Voice.audio_failed;
    run_handler; discipline.
Qed.

Lemma live_event_disciplined e st o :
  Live.on_event e st = Some o → disciplined o.
Proof.
  destruct e as [ws|ws message|ws|ws]; simpl; intros Ho.
  - destruct (Live.sockets st !! ws); simplify_eq. discipline.
  - destruct (Live.sockets st !! ws) as [[]|]; simplify_eq.
    unfold Live.on_message, Live.startLiveSession, Live.handleAudioData,
      Live.handleTextInput, Live.handleInterruption, Live.endLiveSession,
      Live.read, Live.message_failed, Live.input_failed.
    run_handler; discipline.
  - destruct (Live.sockets st !! ws) as [[]|]; simplify_eq;
      unfold Live.on_close, Live.endLiveSession, Live.read; run_handler; discipline.
  - destruct (Live.sockets st !! ws) as [[]|]; simplify_eq; discipline.
Qed.

Lemma live_wake_disciplined k v st o :
  Live.on_wake k v st = Some o → disciplined o.
Proof.
  destruct k as [ws|ws]; simpl; intros Ho.
  - destruct v; simplify_eq/=.
    unfold Live.resumed, Live.message_failed; run_handler; discipline.
  - destruct v; simplify_eq/=;
      unfold Live.resumed, Live.message_failed, Live.input_failed;
      run_handler; discipline.
Qed.

Lemma boot_settled {St K : Type} (st : St) :
  settled (K := K)
    {| w_state := st; w_pending := ∅; w_log := []; w_next := 0; w_unhandled := [] |}.
Proof.
  split; [split|split]; simpl; try done.
  - intros t e Hin. by apply elem_of_nil in Hin.
  - intros t [k Hk]. by rewrite lookup_empty in Hk.
  - intros t Hlt. lia.
Qed.

Lemma server_message_keeps_registry ws connectionId message st :
  same_registry st (o_state (segment (Server.on_message ws connectionId message) st)).
Proof.
  unfold Server.on_message, Server.handleStartConversation, Server.handleAudioData,
    Server.handleEndConversation, Server.activeConnections_get, Server.read,
    Server.message_failed, Server.start_failed, Server.audio_failed.
  run_handler; done.
Qed.

Lemma server_wake_keeps_registry k v st o :
  Server.on_wake k v st = Some o → same_registry st (o_state o).
Proof.
  destruct k as [ws c|ws c|ws c text|ws c|ws connectionId]; simpl; intros Ho.
  - destruct v; simplify_eq/=;
      unfold Server.resumed, Server.message_failed, Server.start_failed;
      run_handler; done.
  - destruct v; simplify_eq/=. case_bool_decide; simplify_eq/=.
    unfold Server.resumed, Server.message_failed, Server.audio_failed, Server.read;
      run_handler; done.
  - destruct v; simplify_eq/=;
      unfold Server.resumed, Server.message_failed, Server.audio_failed;
      run_handler; done.
  - destruct v; simplify_eq/=.
    unfold Server.finished_speaking, Server.read; run_handler; done.
  - destruct v; simplify_eq/=.
    unfold Server.ready_again, Server.activeConnections_get; run_handler; done.
Qed.

Lemma voice_message_keeps_sockets ws message st :
  Voice.sockets (o_state (segment (Voice.on_message ws message) st)) = Voice.sockets st.
Proof.
  unfold Voice.on_message, Voice.handleStartConversation, Voice.startConversation,
    Voice.handleAudioData, Voice.processAudio, Voice.Buffer_from,
    Voice.handleNaturalInterrupt, Voice.handleEndConversation,
    Voice.endConversation, Voice.read, Voice.message_failed, Voice.audio_failed.
  run_handler; done.
Qed.

Lemma voice_wake_keeps_sockets k v st o :
  Voice.on_wake k v st = Some o → Voice.sockets (o_state o) = Voice.sockets st.
Proof.
  destruct k as [ws]; simpl; intros Ho.
  destruct v; simplify_eq/=;
    unfold Voice.resumed, Voice.message_failed, Voice.audio_failed;
    run_handler; done.
Qed.

Lemma live_message_keeps_sockets ws message st :
  Live.sockets (o_state (segment (Live.on_message ws message) st)) = Live.sockets st.
Proof.
  unfold Live.on_message, Live.startLiveSession, Live.handleAudioData,
    Live.handleTextInput, Live.handleInterruption, Live.endLiveSession,
    Live.read, Live.message_failed, Live.input_failed.
  run_handler; done.
Qed.

Lemma live_wake_keeps_sockets k v st o :
  Live.on_wake k v st = Some o → Live.sockets (o_state o) = Live.sockets st.
Proof.
  destruct k as [ws|ws]; simpl; intros Ho.
  - destruct v; simplify_eq/=.
    unfold Live.resumed, Live.message_failed; run_handler; done.
  - destruct v; simplify_eq/=;
      unfold Live.resumed, Live.message_failed, Live.input_failed;
      run_handler; done.
Qed.

(** C10: whatever is thrown while a message is handled is caught by the
    handler.  In every schedule of each of the three servers no handler's
    promise is ever rejected (nothing is rethrown, so no processing
    failure reaches the socket or the process), and the effects of one
    message hold at most one [error] frame.  No segment of a message
    handler, first or resumed, changes the transport state of any
    socket. *)
Theorem C10_exceptions_stop_at_the_message_handler
    (s1 : list Server.action) (s2 : list Voice.action) (s3 : list Live.action)
    (task : nat) :
  (w_unhandled (Server.exec Server.boot s1) = [] ∧
   errors (effects_of task (w_log (Server.exec Server.boot s1))) ≤ 1) ∧
  (w_unhandled (Voice.exec Voice.boot s2) = [] ∧
   errors (effects_of task (w_log (Voice.exec Voice.boot s2))) ≤ 1) ∧
  (w_unhandled (Live.exec Live.boot s3) = [] ∧
   errors (effects_of task (w_log (Live.exec Live.boot s3))) ≤ 1) ∧
  (∀ ws connectionId message st,
     Server.sockets (o_state (segment (Server.on_message ws connectionId message) st))
     = Server.sockets st) ∧
  (∀ k v st o, Server.on_wake k v st = Some o →
               Server.sockets (o_state o) = Server.sockets st) ∧
  (∀ ws message st,
     Voice.sockets (o_state (segment (Voice.on_message ws message) st))
     = Voice.sockets st) ∧
  (∀ k v st o, Voice.on_wake k v st = Some o →
               Voice.sockets (o_state o) = Voice.sockets st) ∧
  (∀ ws message st,
     Live.sockets (o_state (segment (Live.on_message ws message) st))
     = Live.sockets st) ∧
  (∀ k v st o, Live.on_wake k v st = Some o →
               Live.sockets (o_state o) = Live.sockets st).
Proof.
  assert (settled (Server.exec Server.boot s1)) as H1.
  { apply (settled_run _ _ server_event_disciplined server_wake_disciplined), boot_settled. }
  assert (settled (Voice.exec Voice.boot s2)) as H2.
  { apply (settled_run _ _ voice_event_disciplined voice_wake_disciplined), boot_settled. }
  assert (settled (Live.exec Live.boot s3)) as H3.
  { apply (settled_run _ _ live_event_disciplined live_wake_disciplined), boot_settled. }
  split; [split; [apply H1|by apply settled_errors]|].
  split; [split; [apply H2|by apply settled_errors]|].
  split; [split; [apply H3|by apply settled_errors]|].
  split; [intros; apply server_message_keeps_registry|].
  split; [intros * Ho; by apply server_wake_keeps_registry in Ho as [? _]|].
  split; [intros; apply voice_message_keeps_sockets|].
  split; [apply voice_wake_keeps_sockets|].
  split; [intros; apply live_message_keeps_sockets|].
  apply live_wake_keeps_sockets.
Qed.

(** ** server.js, segment by segment *)

Lemma tagged_as_parsed (label : string) (message : parse_result) :
  tagged_as label message = true →
  ∃ data, message = Parsed data ∧ is_null data = false ∧
          property data "type" = Some (JStr label).
Proof.
  destruct message as [e|data]; simpl; [done|]. intros H%tag_is_true.
  exists data. repeat split; [|done]. by destruct data.
Qed.

Ltac dispatch H :=
  apply tagged_as_parsed in H as (? & -> & ? & ?);
  unfold Server.on_message, Voice.on_message, Live.on_message;
  repeat (progress unfold segment, JSON_parse, data_type, try_catch, send, emit,
            modify, get_state, await, throw, mbind, js_bind, mret, js_ret in *);
  simpl;
  repeat match goal with
         | H : is_null _ = _ |- _ => rewrite H
         | H : property _ _ = _ |- _ => rewrite H
         end;
  simpl.

(** A user turn with no conversation to go to. *)
Lemma server_audio_refused ws connectionId message st :
  tagged_as "audio_data" message = true →
  (∀ c, Server.activeConnections st !! connectionId = Some c →
        Server.chat (Server.deref st c) ≠ object) →
  segment (Server.on_message ws connectionId message) st
  = Outcome st [Send ws (error "No active conversation")] None None.
Proof.
  intros Htag Hidle. dispatch Htag.
  unfold Server.handleAudioData, Server.activeConnections_get, Server.read.
  run_handler; try done.
  all: exfalso; eapply Hidle; eauto; by destruct (Server.chat _).
Qed.

(** A user turn that is accepted: the flag is cleared if it was set, and
    the handler waits for the transcription. *)
Lemma server_audio_accepted ws connectionId message st c :
  tagged_as "audio_data" message = true →
  Server.activeConnections st !! connectionId = Some c →
  Server.chat (Server.deref st c) = object →
  segment (Server.on_message ws connectionId message) st
  = if Server.speaking (Server.deref st c) then
      Outcome (Server.assign c (Server.set_isSpeaking false) st)
              [Send ws (natural_interrupt "AI stopped due to user voice input")]
              (Some (Server.stt_result ws c)) None
    else Outcome st [] (Some (Server.stt_result ws c)) None.
Proof.
  intros Htag Hreg Hchat. dispatch Htag.
  unfold Server.handleAudioData, Server.activeConnections_get, Server.read.
  run_handler; try done; by rewrite Hchat in *.
Qed.

Lemma server_dispatch ws c text st :
  text ∈ Server.sampleQueries →
  Server.chat (Server.deref st c) = object →
  Server.on_wake (Server.stt_result ws c) (Fulfilled text) st
  = Some (Outcome st [SendMessage c (Transcript text)]
                  (Some (Server.provider_reply ws c text)) None).
Proof.
  intros Hin Hchat. simpl. rewrite bool_decide_eq_true_2 by done. simpl.
  unfold Server.resumed, Server.read. run_handler; done.
Qed.

Lemma server_reply ws c text reply st :
  Server.on_wake (Server.provider_reply ws c text) (Fulfilled reply) st
  = Some (Outcome (Server.assign c (Server.set_isSpeaking true) st)
                  [Send ws (ai_response reply (Some text))]
                  (Some (Server.speaking_timer ws c)) None).
Proof. reflexivity. Qed.

Lemma server_failure ws c text e st :
  Server.on_wake (Server.provider_reply ws c text) (Rejected e) st
  = Some (Outcome st [Send ws (error "Failed to process audio")] None None).
Proof. reflexivity. Qed.

Lemma server_wake_no_interrupt k v st o :
  Server.on_wake k v st = Some o →
  Forall (λ e, is_interrupt e = false) (o_effects o).
Proof.
  destruct k as [ws c|ws c|ws c text|ws c|ws connectionId]; simpl; intros Ho.
  - destruct v; simplify_eq/=; repeat constructor.
  - destruct v; simplify_eq/=. case_bool_decide; simplify_eq/=.
    unfold Server.resumed, Server.message_failed, Server.audio_failed, Server.read;
      run_handler; repeat constructor.
  - destruct v; simplify_eq/=; repeat constructor.
  - destruct v; simplify_eq/=.
    unfold Server.finished_speaking, Server.read; run_handler; repeat constructor.
  - destruct v; simplify_eq/=.
    unfold Server.ready_again, Server.activeConnections_get; run_handler;
      repeat constructor.
Qed.

Lemma no_interrupt_left (l : list effect) :
  Forall (λ e, is_interrupt e = false) l →
  filter (λ e, is_interrupt e = true) l = [].
Proof.
  induction 1 as [|e l He _ IH]; [done|].
  rewrite filter_cons_False; [done|]. by rewrite He.
Qed.

Lemma server_boot_tidy (schedule : list Server.action) :
  tidy (Server.exec Server.boot schedule).
Proof. apply tidy_run, boot_settled. Qed.

Lemma interrupted_first_wake ws k v st o fr :
  interrupted_first ws (Some k) fr → Server.on_wake k v st = Some o →
  interrupted_first ws (o_pending o) (fr ++ o_effects o).
Proof.
  intros (rest & -> & Hrest) Ho. exists (rest ++ o_effects o). split; [done|].
  apply Forall_app. split; [done|]. by eapply server_wake_no_interrupt.
Qed.

Lemma server_quiet_wake (k : Server.cont) (v : wake) (st : Server.state)
    (o : outcome Server.state Server.cont) (fr : list effect) :
  Forall (λ e, is_interrupt e = false) fr → Server.on_wake k v st = Some o →
  Forall (λ e, is_interrupt e = false) (fr ++ o_effects o).
Proof.
  intros Hfr Ho. apply Forall_app. split; [done|]. by eapply server_wake_no_interrupt.
Qed.

(** C3: the second user turn arrives while the provider call of the first
    is in flight; no [natural_interrupt] is sent, for it or for any
    other task, and both turns are answered. *)
Lemma C3_turn_during_a_call_is_no_interrupt :
  let s := two_turns_in_flight ++
           [Wake 2 (Fulfilled "85 kmph"); Wake 3 (Fulfilled "4.5 hours")] in
  Server.can Server.boot s = true ∧
  w_pending (Server.exec Server.boot first_turn_in_flight) !! 2
    = Some (Server.provider_reply 0 0 "What's the top speed?") ∧
  effects_of 3 (w_log (Server.exec Server.boot s))
    = [ SendMessage 0 (Transcript "How long does charging take?");
        Send 0 (ai_response "4.5 hours" (Some "How long does charging take?")) ] ∧
  effects_of 2 (w_log (Server.exec Server.boot s))
    = [ SendMessage 0 (Transcript "What's the top speed?");
        Send 0 (ai_response "85 kmph" (Some "What's the top speed?")) ] ∧
  filter (λ p, is_interrupt p.2 = true) (w_log (Server.exec Server.boot s)) = [].
Proof. vm_compute. done. Qed.

(** C3, amended: whether a user turn interrupts is decided by
    [isSpeaking] alone.  A user turn ([audio_data]) that arrives on an
    open socket whose conversation has a chat, after any schedule and
    whatever provider calls are in flight, has these effects in every
    continuation of the schedule: if [isSpeaking] is true, exactly one
    [natural_interrupt], sent as the first effect of the turn and so
    before its [ai_response]; if [isSpeaking] is not true, no
    [natural_interrupt] at all. *)
Theorem C3_interrupt_once_and_first
    (before after : list Server.action) (ws c : nat) (connectionId : string)
    (message : parse_result) :
  let w := Server.exec Server.boot before in
  Server.sockets (w_state w) !! ws = Some (connectionId, OPEN) →
  Server.activeConnections (w_state w) !! connectionId = Some c →
  Server.chat (Server.deref (w_state w) c) = object →
  tagged_as "audio_data" message = true →
  let fr := effects_of (w_next w)
              (w_log (Server.exec w (Arrive (Server.message_event ws message) :: after))) in
  if Server.speaking (Server.deref (w_state w) c) then
    ∃ rest,
      fr = Send ws (natural_interrupt "AI stopped due to user voice input") :: rest ∧
      Forall (λ e, is_interrupt e = false) rest ∧
      length (filter (λ e, is_interrupt e = true) fr) = 1 ∧
      (∀ i j e1 e2, fr !! i = Some e1 → fr !! j = Some e2 →
                    is_interrupt e1 = true → is_assistant_turn e2 = true → i < j)
  else
    Forall (λ e, is_interrupt e = false) fr ∧
    length (filter (λ e, is_interrupt e = true) fr) = 0.
Proof.
  intros w Hsock Hreg Hchat Htag fr.
  pose proof (server_audio_accepted ws connectionId message _ c Htag Hreg Hchat) as Hseg.
  destruct (Server.speaking (Server.deref (w_state w) c)) eqn:Hspeak.
  - assert (Server.on_event (Server.message_event ws message) (w_state w)
            = Some (Outcome (Server.assign c (Server.set_isSpeaking false) (w_state w))
                      [Send ws (natural_interrupt "AI stopped due to user voice input")]
                      (Some (Server.stt_result ws c)) None)) as Hev.
    { simpl. rewrite Hsock. by rewrite Hseg. }
    pose proof (step_arrive Server.on_event Server.on_wake w _ _ Hev) as Hstep.
    set (w1 := commit _ _ _ _ _) in Hstep.
    subst fr. unfold Server.exec. rewrite run_cons, Hstep. simpl.
    assert (holds_for (interrupted_first ws) (w_next w) w1) as Hw1.
    { eapply (task_local_arrive Server.on_event Server.on_wake); eauto.
      - apply server_boot_tidy.
      - exists []. by split. }
    assert (w_next w < w_next w1) as Hlt by (simpl; lia).
    pose proof (task_local_run Server.on_event Server.on_wake (interrupted_first ws)
                  (interrupted_first_wake ws) w1 after (w_next w) Hlt Hw1)
      as (rest & Heq & Hrest).
    exists rest. split; [done|]. split; [done|]. rewrite Heq. split.
    + rewrite filter_cons_True by done. simpl. f_equal. by rewrite no_interrupt_left.
    + intros [|i] [|j] e1 e2 H1 H2 Hi Ha; simplify_eq/=; try lia.
      apply list_elem_of_lookup_2 in H1.
      rewrite Forall_forall in Hrest. apply Hrest in H1. congruence.
  - assert (Server.on_event (Server.message_event ws message) (w_state w)
            = Some (Outcome (w_state w) [] (Some (Server.stt_result ws c)) None)) as Hev.
    { simpl. rewrite Hsock. by rewrite Hseg. }
    pose proof (step_arrive Server.on_event Server.on_wake w _ _ Hev) as Hstep.
    set (w1 := commit _ _ _ _ _) in Hstep.
    subst fr. unfold Server.exec. rewrite run_cons, Hstep. simpl.
    assert (holds_for (λ _ fr, Forall (λ e, is_interrupt e = false) fr) (w_next w) w1)
      as Hw1.
    { eapply (task_local_arrive Server.on_event Server.on_wake
                (λ _ fr, Forall (λ e, is_interrupt e = false) fr)); eauto.
      apply server_boot_tidy. }
    assert (w_next w < w_next w1) as Hlt by (simpl; lia).
    pose proof (task_local_run Server.on_event Server.on_wake
                  (λ _ fr, Forall (λ e, is_interrupt e = false) fr)
                  (λ k v st o fr, server_quiet_wake k v st o fr)
                  w1 after (w_next w) Hlt Hw1) as Hquiet.
    unfold holds_for in Hquiet. split; [done|]. by rewrite no_interrupt_left.
Qed.

(** ** Turn taking in server.js *)

Lemma server_deref_assign st c f :
  is_Some (Server.objects st !! c) →
  Server.deref (Server.assign c f st) c = f (Server.deref st c).
Proof.
  intros [o Ho]. unfold Server.deref, Server.assign. simpl.
  rewrite lookup_alter_eq, Ho. done.
Qed.

Lemma server_started_allocated st c :
  Server.chat (Server.deref st c) = object → is_Some (Server.objects st !! c).
Proof.
  unfold Server.deref. destruct (Server.objects st !! c); [eauto|done].
Qed.




(** C3 at the conversation of [greeted]: the turn interrupts the greeting
    and is then answered. *)
Lemma C3_interrupt_once_and_first_witness :
  let fr := effects_of (w_next (Server.exec Server.boot greeted))
              (w_log (Server.exec (Server.exec Server.boot greeted)
                        (Arrive (Server.message_event 0 (typed "audio_data"))
                         :: [Wake 2 (Fulfilled "What's the top speed?");
                             Wake 2 (Fulfilled "85 kmph")]))) in
  ∃ rest,
    fr = Send 0 (natural_interrupt "AI stopped due to user voice input") :: rest ∧
    Forall (λ e, is_interrupt e = false) rest ∧
    length (filter (λ e, is_interrupt e = true) fr) = 1 ∧
    (∀ i j e1 e2, fr !! i = Some e1 → fr !! j = Some e2 →
                  is_interrupt e1 = true → is_assistant_turn e2 = true → i < j).
Proof.
  pose proof (C3_interrupt_once_and_first greeted
                [Wake 2 (Fulfilled "What's the top speed?"); Wake 2 (Fulfilled "85 kmph")]
                0 0 "k3x9q2m1z" (typed "audio_data")) as H.
  cbv zeta in H.
  assert (Server.speaking (Server.deref (w_state (Server.exec Server.boot greeted)) 0)
          = true) as Hs by (vm_compute; reflexivity).
  rewrite Hs in H. apply H; vm_compute; reflexivity.
Defined.

(** C2: the reply to the first turn arrives after the second turn was
    dispatched, and is sent to the client all the same. *)
Lemma C2_superseded_reply_is_delivered :
  Server.can Server.boot (two_turns_in_flight ++ [Wake 2 (Fulfilled "85 kmph")]) = true ∧
  drop 4 (w_log (Server.exec Server.boot
                   (two_turns_in_flight ++ [Wake 2 (Fulfilled "85 kmph")])))
  = [ (2, SendMessage 0 (Transcript "What's the top speed?"));
      (3, SendMessage 0 (Transcript "How long does charging take?"));
      (2, Send 0 (ai_response "85 kmph" (Some "What's the top speed?"))) ].
Proof. vm_compute. done. Qed.

Ltac allocated :=
  repeat match goal with
         | |- _ ∧ _ => split
         | |- ∀ _, _ => intro
         | |- _ → _ => intro
         end;
  simplify_eq/=;
  rewrite ?lookup_alter_is_Some;
  try done.

(** Connection objects are never freed, and an event suspends no
    handler at a provider call of a user turn. *)
Lemma server_event_allocates e st o :
  Server.on_event e st = Some o →
  (∀ c, is_Some (Server.objects st !! c) → is_Some (Server.objects (o_state o) !! c)) ∧
  (∀ ws c text, o_pending o ≠ Some (Server.provider_reply ws c text)).
Proof.
  destruct e as [ws connectionId|ws message|ws|ws]; simpl; intros Ho.
  - destruct (Server.sockets st !! ws); simplify_eq/=. split; [|done].
    intros c Hc. destruct (decide (c = ws)) as [->|Hne].
    + by rewrite lookup_insert_eq.
    + by rewrite lookup_insert_ne.
  - destruct (Server.sockets st !! ws) as [[connectionId []]|]; simplify_eq.
    unfold Server.on_message, Server.handleStartConversation, Server.handleAudioData,
      Server.handleEndConversation, Server.activeConnections_get, Server.read,
      Server.message_failed, Server.start_failed, Server.audio_failed.
    run_handler; allocated.
  - destruct (Server.sockets st !! ws) as [[connectionId []]|]; simplify_eq/=; done.
  - destruct (Server.sockets st !! ws) as [[connectionId []]|]; simplify_eq/=; done.
Qed.

(** The transcription goes to the provider only through a chat, which
    only an existing object has. *)
Lemma server_wake_allocates k v st o :
  Server.on_wake k v st = Some o →
  (∀ c, is_Some (Server.objects st !! c) → is_Some (Server.objects (o_state o) !! c)) ∧
  (∀ ws c text, o_pending o = Some (Server.provider_reply ws c text) →
                is_Some (Server.objects (o_state o) !! c)).
Proof.
  destruct k as [ws c|ws c|ws c text|ws c|ws connectionId]; simpl; intros Ho.
  - destruct v; simplify_eq/=; allocated.
  - destruct v; simplify_eq/=. case_bool_decide; simplify_eq/=.
    unfold Server.resumed, Server.message_failed, Server.audio_failed, Server.read,
      Server.deref.
    destruct (Server.objects st !! c) as [x|] eqn:Hc; run_handler; allocated.
    all: by rewrite Hc in *.
  - destruct v; simplify_eq/=; allocated.
  - destruct v; simplify_eq/=.
    unfold Server.finished_speaking, Server.read; run_handler; allocated.
  - destruct v; simplify_eq/=.
    unfold Server.ready_again, Server.activeConnections_get; run_handler; allocated.
Qed.

Lemma calls_allocated_step (w w' : Server.world) (a : Server.action) :
  calls_allocated w → step Server.on_event Server.on_wake w a = Some w' →
  calls_allocated w'.
Proof.
  intros Hw Hstep t ws c text. destruct a as [e|t' v]; simpl in Hstep.
  - destruct (Server.on_event e (w_state w)) as [o|] eqn:Ho; simplify_eq/=.
    apply server_event_allocates in Ho as [Hkeep Hnone].
    destruct (o_pending o) as [k|] eqn:Hk.
    + destruct (decide (t = w_next w)) as [->|Hne].
      * rewrite lookup_insert_eq. intros ?; simplify_eq. by destruct (Hnone ws c text).
      * rewrite lookup_insert_ne by done. intros H. eapply Hkeep, Hw, H.
    + intros H. eapply Hkeep, Hw, H.
  - destruct (w_pending w !! t') as [k|] eqn:Hk; simplify_eq/=.
    destruct (Server.on_wake k v (w_state w)) as [o|] eqn:Ho; simplify_eq/=.
    apply server_wake_allocates in Ho as [Hkeep Hnew].
    destruct (o_pending o) as [k'|] eqn:Hk'.
    + destruct (decide (t = t')) as [->|Hne].
      * rewrite lookup_insert_eq. intros ?; simplify_eq. by eapply Hnew.
      * rewrite lookup_insert_ne, lookup_delete_ne by done.
        intros H. eapply Hkeep, Hw, H.
    + destruct (decide (t = t')) as [->|Hne].
      * by rewrite lookup_delete_eq.
      * rewrite lookup_delete_ne by done. intros H. eapply Hkeep, Hw, H.
Qed.

Lemma calls_allocated_run (w : Server.world) (s : list Server.action) :
  calls_allocated w → calls_allocated (Server.exec w s).
Proof.
  revert w. induction s as [|a s IH]; intros w Hw; [done|].
  unfold Server.exec. rewrite run_cons. apply IH.
  destruct (step Server.on_event Server.on_wake w a) eqn:Ha; [|done].
  simpl. by eapply calls_allocated_step.
Qed.

Lemma server_calls_allocated (schedule : list Server.action) :
  calls_allocated (Server.exec Server.boot schedule).
Proof.
  apply calls_allocated_run. intros t ws c text H. simpl in H.
  by rewrite lookup_empty in H.
Qed.

(** C2, amended: no reply is discarded.  After every schedule, whatever
    user turns arrived since the call was made, a provider call that a
    user turn is waiting for and that is answered makes the server send
    exactly one [ai_response] with that answer and set [isSpeaking] on
    the connection of the turn; the handler goes on to the speaking
    timer, and no other connection is touched. *)
Theorem C2_every_reply_is_delivered
    (schedule : list Server.action) (task ws c : nat) (text reply : string) :
  let w := Server.exec Server.boot schedule in
  w_pending w !! task = Some (Server.provider_reply ws c text) →
  ∃ w', step Server.on_event Server.on_wake w (Wake task (Fulfilled reply)) = Some w' ∧
        w_log w' = w_log w ++ [(task, Send ws (ai_response reply (Some text)))] ∧
        w_pending w' !! task = Some (Server.speaking_timer ws c) ∧
        Server.deref (w_state w') c
        = Server.set_isSpeaking true (Server.deref (w_state w) c) ∧
        Server.speaking (Server.deref (w_state w') c) = true ∧
        (∀ c', c' ≠ c → Server.deref (w_state w') c' = Server.deref (w_state w) c') ∧
        same_registry (w_state w) (w_state w').
Proof.
  intros w Hk.
  pose proof (server_calls_allocated schedule task ws c text Hk) as Hc.
  eexists. split; [eapply step_wake; [done|apply server_reply]|]. simpl.
  split; [done|]. split; [by rewrite lookup_insert_eq|].
  rewrite server_deref_assign by done.
  split; [done|]. split; [done|]. split; [|done].
  intros c' Hne. unfold Server.deref, Server.assign. simpl.
  by rewrite lookup_alter_ne.
Qed.

(** C2 with two turns in flight: the first is answered. *)
Lemma C2_every_reply_is_delivered_witness :
  let w := Server.exec Server.boot two_turns_in_flight in
  ∃ w', step Server.on_event Server.on_wake w (Wake 2 (Fulfilled "85 kmph")) = Some w' ∧
        w_log w' = w_log w ++
          [(2, Send 0 (ai_response "85 kmph" (Some "What's the top speed?")))] ∧
        w_pending w' !! 2 = Some (Server.speaking_timer 0 0) ∧
        Server.deref (w_state w') 0
        = Server.set_isSpeaking true (Server.deref (w_state w) 0) ∧
        Server.speaking (Server.deref (w_state w') 0) = true ∧
        (∀ c', c' ≠ 0 → Server.deref (w_state w') c' = Server.deref (w_state w) c') ∧
        same_registry (w_state w) (w_state w').
Proof.
  apply (C2_every_reply_is_delivered two_turns_in_flight 2 0 0). vm_compute. reflexivity.
Defined.

(** A handler that is over is not resumed. *)
Lemma over_stays_over (X : list effect) (k : Server.cont) (v : wake) (st : Server.state)
    (o : outcome Server.state Server.cont) (fr : list effect) :
  Some k = None ∧ fr = X → Server.on_wake k v st = Some o →
  o_pending o = None ∧ fr ++ o_effects o = X.
Proof. by intros [? _]. Qed.

(** C9: with two turns in flight the first is answered, then the call of
    the second fails: the error is reported and the session is
    [Speaking]. *)
Lemma C9_failure_while_speaking :
  let s := two_turns_in_flight ++ [Wake 2 (Fulfilled "85 kmph"); Wake 3 (Rejected "429")] in
  Server.can Server.boot s = true ∧
  effects_of 3 (w_log (Server.exec Server.boot s))
  = [ SendMessage 0 (Transcript "How long does charging take?");
      Send 0 (error "Failed to process audio") ] ∧
  Server.phase_of <$> Server.session (w_state (Server.exec Server.boot s)) 0
  = Some Speaking.
Proof. vm_compute. done. Qed.

(** C9, amended: when the provider call of a user turn fails, after any
    schedule, the server sends exactly one [error] frame for that turn,
    the failure changes nothing of the state and no exception escapes;
    the turn is over: in every continuation it is never dispatched again
    and sends nothing more.  The session is in the phase the failure
    found, whatever that is.  It is [Listening] when nothing else was
    handled between the acceptance of the turn and the failure of its
    call: accepting a turn clears [isSpeaking], and neither the dispatch
    nor the failure writes to the state. *)
Theorem C9_failure_reported_state_kept
    (before after : list Server.action) (task ws c : nat) (text e : string)
    (st : Server.state) (connectionId : string) (message : parse_result) (query : string) :
  let w := Server.exec Server.boot before in
  w_pending w !! task = Some (Server.provider_reply ws c text) →
  tagged_as "audio_data" message = true →
  Server.activeConnections st !! connectionId = Some c →
  Server.chat (Server.deref st c) = object →
  query ∈ Server.sampleQueries →
  (∃ w', step Server.on_event Server.on_wake w (Wake task (Rejected e)) = Some w' ∧
         w_state w' = w_state w ∧
         w_log w' = w_log w ++ [(task, Send ws (error "Failed to process audio"))] ∧
         w_pending w' = delete task (w_pending w) ∧
         w_unhandled w' = w_unhandled w ∧
         w_pending (Server.exec w' after) !! task = None ∧
         effects_of task (w_log (Server.exec w' after))
         = effects_of task (w_log w) ++ [Send ws (error "Failed to process audio")]) ∧
  (∃ o1 o2 o3,
     segment (Server.on_message ws connectionId message) st = o1 ∧
     o_pending o1 = Some (Server.stt_result ws c) ∧
     Forall (λ e, is_provider_call e = false) (o_effects o1) ∧
     Server.on_wake (Server.stt_result ws c) (Fulfilled query) (o_state o1) = Some o2 ∧
     o_effects o2 = [SendMessage c (Transcript query)] ∧
     o_pending o2 = Some (Server.provider_reply ws c query) ∧
     Server.on_wake (Server.provider_reply ws c query) (Rejected e) (o_state o2) = Some o3 ∧
     o_effects o3 = [Send ws (error "Failed to process audio")] ∧
     o_pending o3 = None ∧ o_rejected o3 = None ∧
     o_state o3 = o_state o1 ∧
     Server.phase_of (Server.deref (o_state o3) c) = Listening).
Proof.
  intros w Hk Htag Hreg Hchat Hquery. split.
  - pose proof (step_wake Server.on_event Server.on_wake w task (Rejected e) _ _ Hk
                  (server_failure ws c text e (w_state w))) as Hstep.
    set (w' := commit _ _ _ _ _) in Hstep.
    exists w'. split; [done|]. do 4 (split; [done|]).
    assert (tidy w) as Hw by apply server_boot_tidy.
    assert (task < w_next w') as Hlt.
    { simpl. apply Hw. by rewrite Hk. }
    assert (holds_for
              (λ k fr, k = None ∧
                       fr = effects_of task (w_log w) ++
                            [Send ws (error "Failed to process audio")]) task w') as Hover.
    { unfold holds_for. simpl. rewrite lookup_delete_eq. split; [done|].
      rewrite effects_of_app. f_equal. apply (effects_of_own task [_]). }
    apply (task_local_run Server.on_event Server.on_wake _ (over_stays_over _)
             w' after task Hlt Hover).
  - assert (is_Some (Server.objects st !! c)) as Hc by by apply server_started_allocated.
    pose proof (server_audio_accepted ws connectionId message st c Htag Hreg Hchat) as Hseg.
    assert (∃ st1, segment (Server.on_message ws connectionId message) st
                   = Outcome st1 (if Server.speaking (Server.deref st c)
                                  then [Send ws (natural_interrupt
                                                   "AI stopped due to user voice input")]
                                  else [])
                       (Some (Server.stt_result ws c)) None ∧
                   Server.chat (Server.deref st1 c) = object ∧
                   Server.speaking (Server.deref st1 c) = false) as (st1 & Hst1 & Hchat1 & Hs1).
    { destruct (Server.speaking (Server.deref st c)) eqn:Hs; eexists; (split; [exact Hseg|]).
      - rewrite server_deref_assign by done. simpl. by rewrite Hchat.
      - done. }
    eexists _, _, _. split; [exact Hst1|]. simpl.
    split; [done|]. split; [by destruct (Server.speaking _); repeat constructor|].
    split; [by apply server_dispatch|]. simpl.
    split; [done|]. split; [done|]. split; [apply (server_failure ws c query e)|]. simpl.
    do 4 (split; [done|]).
    unfold Server.phase_of. by rewrite Hchat1, Hs1.
Qed.

(** C9 with one turn in flight; and a turn accepted while the greeting
    was spoken, whose call fails with nothing in between. *)
Lemma C9_failure_reported_state_kept_witness :
  let w := Server.exec Server.boot first_turn_in_flight in
  let st := w_state (Server.exec Server.boot greeted) in
  let after := [Arrive (Server.message_event 0 (typed "audio_data")); Wake 2 Elapsed] in
  (∃ w', step Server.on_event Server.on_wake w (Wake 2 (Rejected "429")) = Some w' ∧
         w_state w' = w_state w ∧
         w_log w' = w_log w ++ [(2, Send 0 (error "Failed to process audio"))] ∧
         w_pending w' = delete 2 (w_pending w) ∧
         w_unhandled w' = w_unhandled w ∧
         w_pending (Server.exec w' after) !! 2 = None ∧
         effects_of 2 (w_log (Server.exec w' after))
         = effects_of 2 (w_log w) ++ [Send 0 (error "Failed to process audio")]) ∧
  (∃ o1 o2 o3,
     segment (Server.on_message 0 "k3x9q2m1z" (typed "audio_data")) st = o1 ∧
     o_pending o1 = Some (Server.stt_result 0 0) ∧
     Forall (λ e, is_provider_call e = false) (o_effects o1) ∧
     Server.on_wake (Server.stt_result 0 0) (Fulfilled "What's the top speed?") (o_state o1)
     = Some o2 ∧
     o_effects o2 = [SendMessage 0 (Transcript "What's the top speed?")] ∧
     o_pending o2 = Some (Server.provider_reply 0 0 "What's the top speed?") ∧
     Server.on_wake (Server.provider_reply 0 0 "What's the top speed?") (Rejected "429")
       (o_state o2) = Some o3 ∧
     o_effects o3 = [Send 0 (error "Failed to process audio")] ∧
     o_pending o3 = None ∧ o_rejected o3 = None ∧
     o_state o3 = o_state o1 ∧
     Server.phase_of (Server.deref (o_state o3) 0) = Listening).
Proof.
  apply (C9_failure_reported_state_kept first_turn_in_flight _ 2 0 0
           "What's the top speed?" "429" _ "k3x9q2m1z" (typed "audio_data")
           "What's the top speed?");
    try (vm_compute; reflexivity).
  apply (bool_decide_unpack _). vm_compute. exact I.
Defined.

(** ** Ending, and what comes after *)

Lemma server_end ws connectionId message st :
  tagged_as "end_conversation" message = true →
  segment (Server.on_message ws connectionId message) st
  = Outcome
      (match Server.activeConnections st !! connectionId with
       | Some c =>
           Server.assign c (Server.set_model null)
             (Server.assign c (Server.set_chat null)
                (Server.assign c (Server.set_isListening false) st))
       | None => st
       end)
      [Send ws (conversation_ended "Conversation ended. Thanks for choosing Revolt Motors!")]
      None None.
Proof.
  intros Htag. dispatch Htag.
  unfold Server.handleEndConversation, Server.activeConnections_get.
  run_handler; done.
Qed.

Lemma server_start ws connectionId message st c :
  tagged_as "start_conversation" message = true →
  Server.activeConnections st !! connectionId = Some c →
  ∃ st', segment (Server.on_message ws connectionId message) st
         = Outcome st'
             [Send ws (conversation_started "Ready to chat about Revolt Motors!");
              SendMessage c Greeting]
             (Some (Server.greeting_reply ws c)) None.
Proof.
  intros Htag Hreg. dispatch Htag.
  unfold Server.handleStartConversation, Server.activeConnections_get.
  run_handler; eauto.
Qed.

Lemma voice_end ws message st :
  tagged_as "end_conversation" message = true →
  o_effects (segment (Voice.on_message ws message) st)
  = [Send ws (conversation_ended "Conversation ended successfully")].
Proof.
  intros Htag. dispatch Htag.
  unfold Voice.handleEndConversation, Voice.endConversation.
  run_handler; done.
Qed.

(** C4: two [end_conversation] in a row are both answered with
    [conversation_ended] and no [error]; a [start_conversation] sent
    after them is answered with [conversation_started]. *)
Lemma C4_two_ended_no_error :
  let s := listening ++
           [ Arrive (Server.message_event 0 (typed "end_conversation"));
             Arrive (Server.message_event 0 (typed "end_conversation"));
             Arrive (Server.message_event 0 (typed "start_conversation")) ] in
  Server.can Server.boot s = true ∧
  drop 4 (w_log (Server.exec Server.boot s))
  = [ (2, Send 0 (conversation_ended "Conversation ended. Thanks for choosing Revolt Motors!"));
      (3, Send 0 (conversation_ended "Conversation ended. Thanks for choosing Revolt Motors!"));
      (4, Send 0 (conversation_started "Ready to chat about Revolt Motors!"));
      (4, SendMessage 0 Greeting) ].
Proof. vm_compute. done. Qed.

(** C4, amended: every [end_conversation] is acknowledged with exactly one
    [conversation_ended] and no [error], whatever the state, so two in a
    row give two [conversation_ended]; each leaves the conversation ended
    ([chat] is [null]).  After that a user turn is reported with one
    [error] and changes nothing, while a [start_conversation] starts a new
    conversation.  part_000 acknowledges every end as well. *)
Theorem C4_every_end_is_acknowledged
    (st : Server.state) (ws c : nat) (connectionId : string)
    (end1 end2 turn start : parse_result) (vst : Voice.state) :
  tagged_as "end_conversation" end1 = true →
  tagged_as "end_conversation" end2 = true →
  tagged_as "audio_data" turn = true →
  tagged_as "start_conversation" start = true →
  Server.activeConnections st !! connectionId = Some c →
  is_Some (Server.objects st !! c) →
  let o1 := segment (Server.on_message ws connectionId end1) st in
  let o2 := segment (Server.on_message ws connectionId end2) (o_state o1) in
  let ended := Send ws (conversation_ended
                 "Conversation ended. Thanks for choosing Revolt Motors!") in
  (o_effects o1 = [ended] ∧ o_pending o1 = None ∧
   Server.phase_of (Server.deref (o_state o1) c) = Ended) ∧
  (o_effects o2 = [ended] ∧ o_pending o2 = None ∧
   Server.phase_of (Server.deref (o_state o2) c) = Ended) ∧
  segment (Server.on_message ws connectionId turn) (o_state o2)
    = Outcome (o_state o2) [Send ws (error "No active conversation")] None None ∧
  (∃ st', segment (Server.on_message ws connectionId start) (o_state o2)
          = Outcome st'
              [Send ws (conversation_started "Ready to chat about Revolt Motors!");
               SendMessage c Greeting]
              (Some (Server.greeting_reply ws c)) None) ∧
  o_effects (segment (Voice.on_message ws end1) vst)
    = [Send ws (conversation_ended "Conversation ended successfully")].
Proof.
  intros Hend1 Hend2 Hturn Hstart Hreg Halloc o1 o2 ended.
  assert (∀ st0, Server.activeConnections st0 !! connectionId = Some c →
                 is_Some (Server.objects st0 !! c) →
                 ∀ m, tagged_as "end_conversation" m = true →
                 let o := segment (Server.on_message ws connectionId m) st0 in
                 o_effects o = [ended] ∧ o_pending o = None ∧
                 Server.phase_of (Server.deref (o_state o) c) = Ended ∧
                 Server.activeConnections (o_state o) !! connectionId = Some c ∧
                 is_Some (Server.objects (o_state o) !! c)) as Hend.
  { intros st0 Hreg0 [x Hx] m Hm. simpl. rewrite (server_end _ _ _ _ Hm), Hreg0.
    simpl. repeat split; try done.
    - unfold Server.deref. simpl. rewrite !lookup_alter_eq, Hx. done.
    - rewrite !lookup_alter_eq, Hx. simpl. eauto. }
  destruct (Hend st Hreg Halloc end1 Hend1) as (E1 & P1 & Ph1 & R1 & A1).
  destruct (Hend (o_state o1) R1 A1 end2 Hend2) as (E2 & P2 & Ph2 & R2 & A2).
  repeat split; try done.
  - apply server_audio_refused; [done|]. intros c' Hc'.
    assert (c' = c) as -> by (fold o2 in R2; congruence).
    unfold Server.phase_of in Ph2. fold o2 in Ph2. intros Hobj.
    by rewrite Hobj in Ph2; destruct (Server.speaking _).
  - by apply server_start.
  - by apply voice_end.
Qed.

(** C4 at the conversation of [listening]. *)
Lemma C4_every_end_is_acknowledged_witness :
  let st := w_state (Server.exec Server.boot listening) in
  let o1 := segment (Server.on_message 0 "k3x9q2m1z" (typed "end_conversation")) st in
  let o2 := segment (Server.on_message 0 "k3x9q2m1z" (typed "end_conversation")) (o_state o1) in
  let ended := Send 0 (conversation_ended
                 "Conversation ended. Thanks for choosing Revolt Motors!") in
  (o_effects o1 = [ended] ∧ o_pending o1 = None ∧
   Server.phase_of (Server.deref (o_state o1) 0) = Ended) ∧
  (o_effects o2 = [ended] ∧ o_pending o2 = None ∧
   Server.phase_of (Server.deref (o_state o2) 0) = Ended) ∧
  segment (Server.on_message 0 "k3x9q2m1z" (typed "audio_data")) (o_state o2)
    = Outcome (o_state o2) [Send 0 (error "No active conversation")] None None ∧
  (∃ st', segment (Server.on_message 0 "k3x9q2m1z" (typed "start_conversation")) (o_state o2)
          = Outcome st'
              [Send 0 (conversation_started "Ready to chat about Revolt Motors!");
               SendMessage 0 Greeting]
              (Some (Server.greeting_reply 0 0)) None) ∧
  o_effects (segment (Voice.on_message 0 (typed "end_conversation")) Voice.initial)
    = [Send 0 (conversation_ended "Conversation ended successfully")].
Proof.
  apply (C4_every_end_is_acknowledged _ 0 0 "k3x9q2m1z");
    try (vm_compute; reflexivity).
  vm_compute. eauto.
Defined.

(** ** The registry *)

Lemma registry_inv_same st st' seen :
  same_registry st st' → registry_inv st seen → registry_inv st' seen.
Proof. intros [Hs Ha]. unfold registry_inv. by rewrite Hs, Ha. Qed.

Lemma registry_inv_seen st seen more :
  registry_inv st seen → registry_inv st (seen ++ more).
Proof.
  intros (I1 & I2 & I3 & I4). repeat split; try done.
  intros ws id rs H. apply elem_of_app. left. by eapply I3.
Qed.

Lemma registry_inv_connection st seen ws id :
  Server.sockets st !! ws = None → id ∉ seen →
  registry_inv st seen →
  registry_inv (Server.on_connection ws id st) (seen ++ [id]).
Proof.
  intros Hnew Hfresh (I1 & I2 & I3 & I4). repeat split; simpl.
  - intros id' ws' H. destruct (decide (id' = id)) as [->|Hne].
    + rewrite lookup_insert_eq in H. simplify_eq. by rewrite lookup_insert_eq.
    + rewrite lookup_insert_ne in H by done. apply I1 in H.
      rewrite lookup_insert_ne; [done|]. intros ->. congruence.
  - intros ws' id' H. destruct (decide (ws' = ws)) as [->|Hne].
    + rewrite lookup_insert_eq in H. simplify_eq. by rewrite lookup_insert_eq.
    + rewrite lookup_insert_ne in H by done.
      rewrite lookup_insert_ne; [by apply I2|].
      intros ->. apply Hfresh. by eapply I3.
  - intros ws' id' rs H. apply elem_of_app. destruct (decide (ws' = ws)) as [->|Hne].
    + rewrite lookup_insert_eq in H. simplify_eq. right. by apply list_elem_of_singleton.
    + rewrite lookup_insert_ne in H by done. left. by eapply I3.
  - intros ws1 ws2 id' rs rs' H1 H2.
    destruct (decide (ws1 = ws)) as [->|Hne1], (decide (ws2 = ws)) as [->|Hne2];
      try done.
    + rewrite lookup_insert_eq in H1. rewrite lookup_insert_ne in H2 by done.
      simplify_eq. exfalso. apply Hfresh. by eapply I3.
    + rewrite lookup_insert_eq in H2. rewrite lookup_insert_ne in H1 by done.
      simplify_eq. exfalso. apply Hfresh. by eapply I3.
    + rewrite lookup_insert_ne in H1, H2 by done. by eapply I4.
Qed.

Lemma registry_inv_end st seen ws id rs rs' :
  Server.sockets st !! ws = Some (id, rs) → rs' ≠ OPEN →
  registry_inv st seen →
  registry_inv (Server.on_end ws id rs' st) seen.
Proof.
  intros Hws Hclosed (I1 & I2 & I3 & I4). repeat split; simpl.
  - intros id' ws' H. apply lookup_delete_Some in H as [Hne H].
    apply I1 in H. rewrite lookup_insert_ne; [done|]. intros ->. congruence.
  - intros ws' id' H. destruct (decide (ws' = ws)) as [->|Hne].
    + rewrite lookup_insert_eq in H. by simplify_eq.
    + rewrite lookup_insert_ne in H by done.
      rewrite lookup_delete_ne; [by apply I2|].
      intros ->. apply Hne. by eapply I4.
  - intros ws' id' rs0 H. destruct (decide (ws' = ws)) as [->|Hne].
    + rewrite lookup_insert_eq in H. simplify_eq. by eapply I3.
    + rewrite lookup_insert_ne in H by done. by eapply I3.
  - intros ws1 ws2 id' rs1 rs2 H1 H2.
    destruct (decide (ws1 = ws)) as [->|Hne1], (decide (ws2 = ws)) as [->|Hne2];
      try done.
    + rewrite lookup_insert_eq in H1. rewrite lookup_insert_ne in H2 by done.
      simplify_eq. by eapply I4.
    + rewrite lookup_insert_eq in H2. rewrite lookup_insert_ne in H1 by done.
      simplify_eq. by eapply I4.
    + rewrite lookup_insert_ne in H1, H2 by done. by eapply I4.
Qed.

Lemma registry_inv_step (w w' : Server.world) (a : Server.action) seen :
  (∀ id, id ∈ drawn a → id ∉ seen) →
  registry_inv (w_state w) seen →
  step Server.on_event Server.on_wake w a = Some w' →
  registry_inv (w_state w') (seen ++ drawn a).
Proof.
  intros Hfresh Hinv Hstep. destruct a as [[ws id|ws message|ws|ws]|t v]; simpl in *.
  - destruct (Server.sockets (w_state w) !! ws) eqn:Hws; simplify_eq/=.
    apply registry_inv_connection; try done. apply Hfresh. by apply list_elem_of_singleton.
  - destruct (Server.sockets (w_state w) !! ws) as [[id []]|] eqn:Hws; simplify_eq/=.
    rewrite app_nil_r. eapply registry_inv_same; [|done].
    apply server_message_keeps_registry.
  - rewrite app_nil_r.
    destruct (Server.sockets (w_state w) !! ws) as [[id []]|] eqn:Hws; simplify_eq/=;
      by eapply registry_inv_end.
  - rewrite app_nil_r.
    destruct (Server.sockets (w_state w) !! ws) as [[id []]|] eqn:Hws; simplify_eq/=;
      by eapply registry_inv_end.
  - rewrite app_nil_r. destruct (w_pending w !! t) as [k|]; simplify_eq/=.
    destruct (Server.on_wake k v (w_state w)) as [o|] eqn:Ho; simplify_eq/=.
    eapply registry_inv_same; [|done]. by eapply server_wake_keeps_registry.
Qed.

Lemma registry_inv_run (schedule : list Server.action) (w : Server.world) seen :
  NoDup (seen ++ ids_drawn schedule) →
  registry_inv (w_state w) seen →
  registry_inv (w_state (Server.exec w schedule)) (seen ++ ids_drawn schedule).
Proof.
  revert w seen. induction schedule as [|a s IH]; intros w seen Hnodup Hinv.
  - unfold ids_drawn. simpl. by rewrite app_nil_r.
  - change (ids_drawn (a :: s)) with (drawn a ++ ids_drawn s) in *.
    rewrite app_assoc in *.
    unfold Server.exec. rewrite run_cons. apply IH; [done|].
    apply NoDup_app in Hnodup as (Hnodup & _ & _).
    apply NoDup_app in Hnodup as (_ & Hfresh & _).
    destruct (step Server.on_event Server.on_wake w a) as [w'|] eqn:Hstep; simpl.
    + eapply registry_inv_step; [|done..]. intros id Hid Hseen. by eapply Hfresh.
    + by apply registry_inv_seen.
Qed.

(** C5: the client has sent [end_conversation]; its socket is open and
    its entry is still in [activeConnections].  And when the same id is
    drawn for a second socket, the second entry replaces the first, so
    that closing the second socket leaves the first one open with no
    entry. *)
Lemma C5_entry_survives_end :
  let s := listening ++ [ Arrive (Server.message_event 0 (typed "end_conversation")) ] in
  let twice := [ Arrive (Server.connection_event 0 "i");
                 Arrive (Server.connection_event 1 "i");
                 Arrive (Server.close_event 1) ] in
  (Server.can Server.boot s = true ∧
   effects_of 2 (w_log (Server.exec Server.boot s))
     = [Send 0 (conversation_ended "Conversation ended. Thanks for choosing Revolt Motors!")] ∧
   Server.sockets (w_state (Server.exec Server.boot s)) !! 0 = Some ("k3x9q2m1z", OPEN) ∧
   Server.activeConnections (w_state (Server.exec Server.boot s)) !! "k3x9q2m1z" = Some 0) ∧
  (Server.can Server.boot twice = true ∧
   Server.sockets (w_state (Server.exec Server.boot twice)) !! 0 = Some ("i", OPEN) ∧
   Server.activeConnections (w_state (Server.exec Server.boot twice)) !! "i" = None).
Proof. vm_compute. done. Qed.

(** C5, amended: as long as no [connectionId] is drawn twice, at every
    point of every schedule a socket has its entry in [activeConnections]
    if and only if it is open, and every entry belongs to an open socket:
    the entry is made on [connection] and deleted on [close] and on
    [error]; [end_conversation] does not delete it. *)
Theorem C5_entry_iff_open (schedule : list Server.action) :
  NoDup (ids_drawn schedule) →
  let st := w_state (Server.exec Server.boot schedule) in
  (∀ ws connectionId rs,
     Server.sockets st !! ws = Some (connectionId, rs) →
     (Server.activeConnections st !! connectionId = Some ws ↔ rs = OPEN)) ∧
  (∀ connectionId ws,
     Server.activeConnections st !! connectionId = Some ws →
     Server.sockets st !! ws = Some (connectionId, OPEN)).
Proof.
  intros Hnodup st.
  destruct (registry_inv_run schedule Server.boot [] Hnodup) as (I1 & I2 & _ & _).
  { repeat split; simpl; intros *; by rewrite lookup_empty. }
  fold st in I1, I2. split; [|done].
  intros ws id rs Hws. split.
  - intros H%I1. congruence.
  - intros ->. by apply I2.
Qed.

(** C5 on two sockets: one ends its conversation and fails, the other
    stays open. *)
Lemma C5_entry_iff_open_witness :
  let s := listening ++
           [ Arrive (Server.message_event 0 (typed "end_conversation"));
             Arrive (Server.connection_event 1 "p0w4t7c2a");
             Arrive (Server.error_event 0) ] in
  let st := w_state (Server.exec Server.boot s) in
  (∀ ws connectionId rs,
     Server.sockets st !! ws = Some (connectionId, rs) →
     (Server.activeConnections st !! connectionId = Some ws ↔ rs = OPEN)) ∧
  (∀ connectionId ws,
     Server.activeConnections st !! connectionId = Some ws →
     Server.sockets st !! ws = Some (connectionId, OPEN)).
Proof.
  apply (C5_entry_iff_open
           (listening ++
            [ Arrive (Server.message_event 0 (typed "end_conversation"));
              Arrive (Server.connection_event 1 "p0w4t7c2a");
              Arrive (Server.error_event 0) ])).
  apply (bool_decide_unpack _). vm_compute. exact I.
Defined.

(** ** Frames that start nothing *)

Lemma voice_audio_refused ws message st :
  tagged_as "audio_data" message = true →
  Voice.isActive (Voice.deref st ws) = false →
  segment (Voice.on_message ws message) st
  = Outcome st [Send ws (error "Failed to process audio: Conversation not active")]
            None None.
Proof.
  intros Htag Hidle. dispatch Htag.
  unfold Voice.handleAudioData, Voice.processAudio, Voice.read, Voice.audio_failed.
  run_handler; try done; by rewrite Hidle in *.
Qed.

Lemma live_audio_dropped ws message st :
  tagged_as "audio_data" message = true →
  Live.active (Live.deref st ws) = false →
  segment (Live.on_message ws message) st = Outcome st [] None None.
Proof.
  intros Htag Hidle. dispatch Htag.
  unfold Live.read. run_handler; try done; by rewrite Hidle in *.
Qed.

(** C6: in part_001 a user turn sent before [start_session], as audio or
    as text, is dropped without a word. *)
Lemma C6_live_drops_early_turn :
  let s := [ Arrive (Live.connection_event 0);
             Arrive (Live.message_event 0 (typed "audio_data"));
             Arrive (Live.message_event 0
                       (Parsed (JObj [("type", JStr "text_input");
                                      ("text", JStr "price?")]))) ] in
  Live.can Live.boot s = true ∧
  w_log (Live.exec Live.boot s) = [] ∧
  w_pending (Live.exec Live.boot s) = ∅ ∧
  Live.deref (w_state (Live.exec Live.boot s)) 0 = Live.entered.
Proof. vm_compute. done. Qed.

(** C6, amended: a user turn received before any start makes no provider
    call and changes nothing in all three variants.  server.js answers
    it with exactly one [error] ("No active conversation"), part_000 with
    exactly one [error] ("Conversation not active"); part_001 drops it
    and sends nothing. *)
Theorem C6_turn_before_start
    (ws : nat) (connectionId : string) (message : parse_result)
    (st : Server.state) (vst : Voice.state) (lst : Live.state) :
  tagged_as "audio_data" message = true →
  (∀ c, Server.activeConnections st !! connectionId = Some c →
        Server.phase_of (Server.deref st c) = Idle) →
  Voice.isActive (Voice.deref vst ws) = false →
  Live.active (Live.deref lst ws) = false →
  segment (Server.on_message ws connectionId message) st
    = Outcome st [Send ws (error "No active conversation")] None None ∧
  segment (Voice.on_message ws message) vst
    = Outcome vst [Send ws (error "Failed to process audio: Conversation not active")]
              None None ∧
  segment (Live.on_message ws message) lst = Outcome lst [] None None.
Proof.
  intros Htag Hidle Hvoice Hlive. repeat split.
  - apply server_audio_refused; [done|]. intros c Hc Hchat.
    apply Hidle in Hc. unfold Server.phase_of in Hc. rewrite Hchat in Hc.
    by destruct (Server.speaking _).
  - by apply voice_audio_refused.
  - by apply live_audio_dropped.
Qed.

(** C6 on a socket that has only connected, in each variant. *)
Lemma C6_turn_before_start_witness :
  let st := w_state (Server.exec Server.boot [Arrive (Server.connection_event 0 "k3x9q2m1z")]) in
  let vst := w_state (Voice.exec Voice.boot [Arrive (Voice.connection_event 0)]) in
  let lst := w_state (Live.exec Live.boot [Arrive (Live.connection_event 0)]) in
  segment (Server.on_message 0 "k3x9q2m1z" (typed "audio_data")) st
    = Outcome st [Send 0 (error "No active conversation")] None None ∧
  segment (Voice.on_message 0 (typed "audio_data")) vst
    = Outcome vst [Send 0 (error "Failed to process audio: Conversation not active")]
              None None ∧
  segment (Live.on_message 0 (typed "audio_data")) lst = Outcome lst [] None None.
Proof.
  apply (C6_turn_before_start 0 "k3x9q2m1z"); try (vm_compute; reflexivity).
  intros c Hc. vm_compute in Hc. injection Hc as <-. vm_compute. reflexivity.
Defined.

(** C7: an unknown [type] is logged on the server's console; nothing is
    sent to the client. *)
Lemma C7_unknown_type_sends_nothing :
  let s := [ Arrive (Server.connection_event 0 "k3x9q2m1z");
             Arrive (Server.message_event 0 (typed "pause_conversation")) ] in
  Server.can Server.boot s = true ∧
  w_log (Server.exec Server.boot s) = [] ∧
  w_state (Server.exec Server.boot s)
    = w_state (Server.exec Server.boot [Arrive (Server.connection_event 0 "k3x9q2m1z")]).
Proof. vm_compute. done. Qed.

(** C7, amended: a frame that [JSON.parse] rejects, or that parses to
    [null], is answered with exactly one [error] frame; a frame that
    parses to anything else and whose [type] is none of the four known
    strings is answered with nothing.  In both cases the whole state,
    conversation and transport state included, is as before, and nothing
    is left pending. *)
Theorem C7_malformed_and_unknown_frames
    (st : Server.state) (ws : nat) (connectionId : string)
    (syntax_error : string) (data : json) :
  is_null data = false →
  recognized (property data "type") = false →
  segment (Server.on_message ws connectionId (SyntaxError syntax_error)) st
    = Outcome st [Send ws (error "Failed to process message")] None None ∧
  segment (Server.on_message ws connectionId (Parsed JNull)) st
    = Outcome st [Send ws (error "Failed to process message")] None None ∧
  segment (Server.on_message ws connectionId (Parsed data)) st
    = Outcome st [] None None.
Proof.
  intros Hnull Hunknown. repeat split.
  unfold recognized in Hunknown.
  apply orb_false_elim in Hunknown as [Hunknown H4].
  apply orb_false_elim in Hunknown as [Hunknown H3].
  apply orb_false_elim in Hunknown as [H1 H2].
  unfold Server.on_message.
  repeat (progress unfold segment, JSON_parse, data_type, try_catch, send, emit,
            modify, get_state, await, throw, mbind, js_bind, mret, js_ret in *).
  simpl. rewrite Hnull. simpl. by rewrite H1, H2, H3, H4.
Qed.

(** C7 at the conversation of [listening], with a [type] that is a
    number. *)
Lemma C7_malformed_and_unknown_frames_witness :
  let st := w_state (Server.exec Server.boot listening) in
  segment (Server.on_message 0 "k3x9q2m1z" (SyntaxError "Unexpected token } in JSON")) st
    = Outcome st [Send 0 (error "Failed to process message")] None None ∧
  segment (Server.on_message 0 "k3x9q2m1z" (Parsed JNull)) st
    = Outcome st [Send 0 (error "Failed to process message")] None None ∧
  segment (Server.on_message 0 "k3x9q2m1z" (Parsed (JObj [("type", JNum 7)]))) st
    = Outcome st [] None None.
Proof.
  apply (C7_malformed_and_unknown_frames _ 0 "k3x9q2m1z"); vm_compute; reflexivity.
Defined.

(** In server.js every [natural_interrupt] ends in the [catch] of the
    message handler, whatever the state. *)
Lemma server_interrupt_throws ws connectionId message st :
  tagged_as "natural_interrupt" message = true →
  segment (Server.on_message ws connectionId message) st
  = Outcome st [Send ws (error "Failed to process message")] None None.
Proof. intros Htag. dispatch Htag. done. Qed.

(** In part_000 it is acknowledged, whatever the state, and nothing
    else happens. *)
Lemma voice_interrupt_confirmed ws message st :
  tagged_as "natural_interrupt" message = true →
  segment (Voice.on_message ws message) st
  = Outcome st [Send ws (natural_interrupt_confirmed "AI stopped, ready for new input")]
            None None.
Proof. intros Htag. dispatch Htag. done. Qed.

(** C8 on server.js: the conversation is speaking and the client sends
    [natural_interrupt].  The [case] names a function that does not exist,
    so the handler answers with the [error] of its [catch], and the
    session is [Speaking] as before; [handleInterrupt], which no [case]
    calls, would have sent [interrupted]. *)
Theorem C8_interrupt_case_throws :
  let s := greeted ++ [ Arrive (Server.message_event 0 (typed "natural_interrupt")) ] in
  Server.can Server.boot s = true ∧
  Server.phase_of <$> Server.session (w_state (Server.exec Server.boot greeted)) 0
    = Some Speaking ∧
  effects_of 2 (w_log (Server.exec Server.boot s))
    = [Send 0 (error "Failed to process message")] ∧
  Server.phase_of <$> Server.session (w_state (Server.exec Server.boot s)) 0
    = Some Speaking ∧
  o_effects (segment (Server.handleInterrupt 0 "k3x9q2m1z")
               (w_state (Server.exec Server.boot greeted)))
    = [Send 0 (interrupted "AI stopped speaking, ready for new input")].
Proof. vm_compute. done. Qed.


(** * Further properties of the three servers *)

(** ** Invariants of a schedule, in general *)

Section ScheduleInvariants.
Context {St K Ev : Type}.
Variable on_event : Ev → St → option (outcome St K).
Variable on_wake : K → wake → St → option (outcome St K).

(** What every enabled step keeps holds after every schedule. *)
Lemma world_invariant_run (J : @world St K → Prop) (w : world) (s : list action) :
  (∀ w w' a, J w → step on_event on_wake w a = Some w' → J w') →
  J w → J (run on_event on_wake w s).
Proof.
  intros Hstep. revert w. induction s as [|a s IH]; intros w Hw; [done|].
  rewrite run_cons. apply IH.
  destruct (step on_event on_wake w a) eqn:Ha; [|done]. simpl. by eapply Hstep.
Qed.

(** A property of the tasks that arrivals establish and wake-ups keep
    holds of every task after every schedule. *)
Section Shapes.
Variable P : option K → list effect → Prop.
Hypothesis P_none : P None [].
Hypothesis P_event : ∀ e st o, on_event e st = Some o → P (o_pending o) (o_effects o).
Hypothesis P_wake : ∀ k v st o fr,
  P (Some k) fr → on_wake k v st = Some o → P (o_pending o) (fr ++ o_effects o).

Lemma shaped_step (w w' : world) (a : action) :
  shaped P w → step on_event on_wake w a = Some w' → shaped P w'.
Proof.
  intros [Htidy Hall] Hstep. split; [by eapply tidy_step|].
  intros t Hlt. destruct (decide (t < w_next w)) as [Hold|Hnew].
  - eapply task_local_step; eauto.
  - destruct a as [e|t' v].
    + destruct (on_event e (w_state w)) as [o|] eqn:Ho;
        [|by simpl in Hstep; rewrite Ho in Hstep].
      assert (t = w_next w) as ->.
      { simpl in Hstep. rewrite Ho in Hstep. simplify_eq/=. lia. }
      eapply task_local_arrive; eauto.
    + simpl in Hstep. destruct (w_pending w !! t'); simplify_eq/=.
      destruct (on_wake _ v (w_state w)); simplify_eq/=. lia.
Qed.

Lemma shaped_all (w : @world St K) (t : nat) : shaped P w → holds_for P t w.
Proof.
  intros [[Hlog Hpend] Hall]. destruct (decide (t < w_next w)) as [Hlt|Hge].
  - by apply Hall.
  - unfold holds_for. rewrite effects_of_unused.
    + destruct (w_pending w !! t) eqn:Hk; [|done].
      exfalso. apply Hge, Hpend. by rewrite Hk.
    + intros t' e Hin%Hlog. lia.
Qed.

Lemma shaped_run (st : St) (s : list action) (t : nat) :
  holds_for P t
    (run on_event on_wake
       {| w_state := st; w_pending := ∅; w_log := []; w_next := 0; w_unhandled := [] |} s).
Proof.
  apply shaped_all, (world_invariant_run (shaped P)); [apply shaped_step|].
  split; [apply (boot_settled (K := K) st)|]. simpl. intros ? ?. lia.
Qed.
End Shapes.
End ScheduleInvariants.

(** ** server.js *)

Lemma audio_prefix_nil ws : audio_prefix ws [].
Proof. by left. Qed.

Lemma audio_prefix_interrupt ws m : audio_prefix ws [Send ws (natural_interrupt m)].
Proof. right. eauto. Qed.

Ltac shape :=
  simpl; rewrite <- ?app_assoc, ?app_nil_r; simpl;
  first
    [ by econstructor
    | by (eapply (shape_heard _ _ []); apply audio_prefix_nil)
    | by (eapply (shape_heard _ _ [_]); apply audio_prefix_interrupt)
    | by (eapply (shape_not_asked _ []); apply audio_prefix_nil)
    | by (eapply (shape_not_asked _ [_]); apply audio_prefix_interrupt)
    | by econstructor; eauto ].

Lemma server_shape_event e st o :
  Server.on_event e st = Some o → server_shape (o_pending o) (o_effects o).
Proof.
  destruct e as [ws connectionId|ws message|ws|ws]; simpl; intros Ho.
  - destruct (Server.sockets st !! ws); simplify_eq. constructor.
  - destruct (Server.sockets st !! ws) as [[connectionId []]|]; simplify_eq.
    unfold Server.on_message, Server.handleStartConversation, Server.handleAudioData,
      Server.handleEndConversation, Server.activeConnections_get, Server.read,
      Server.message_failed, Server.start_failed, Server.audio_failed.
    run_handler; shape.
  - destruct (Server.sockets st !! ws) as [[connectionId []]|]; simplify_eq; constructor.
  - destruct (Server.sockets st !! ws) as [[connectionId []]|]; simplify_eq; constructor.
Qed.

Lemma server_shape_wake k v st o fr :
  server_shape (Some k) fr → Server.on_wake k v st = Some o →
  server_shape (o_pending o) (fr ++ o_effects o).
Proof.
  intros Hshape Ho. inversion Hshape; subst; simpl in Ho.
  - destruct v; simplify_eq/=; shape.
  - destruct v; simplify_eq/=.
    all: unfold Server.finished_speaking, Server.read in *; run_handler; shape.
  - destruct v; simplify_eq/=. case_bool_decide; simplify_eq/=.
    unfold Server.resumed, Server.message_failed, Server.audio_failed, Server.read in *;
      run_handler; shape.
  - destruct v; simplify_eq/=; shape.
  - destruct v; simplify_eq/=.
    all: unfold Server.finished_speaking, Server.read in *; run_handler; shape.
Qed.

Lemma server_shapes (schedule : list Server.action) (task : nat) :
  holds_for server_shape task (Server.exec Server.boot schedule).
Proof.
  apply (shaped_run Server.on_event Server.on_wake server_shape).
  - constructor.
  - apply server_shape_event.
  - apply server_shape_wake.
Qed.

Ltac by_position :=
  let i := fresh "i" in
  intros i ? ? ?;
  repeat (destruct i as [|i]; simplify_eq/=);
  eauto 10.

(** X1: in server.js the effects of one message hold at most one provider
    call, at most one [ai_response] and at most one [ai_finished_speaking];
    an [ai_response] comes directly after the provider call of the same
    message, and [ai_finished_speaking] directly after its [ai_response]. *)
Theorem X1_response_follows_its_call (schedule : list Server.action) (task : nat) :
  let fr := effects_of task (w_log (Server.exec Server.boot schedule)) in
  length (filter (λ e, is_provider_call e = true) fr) ≤ 1 ∧
  length (filter (λ e, is_assistant_turn e = true) fr) ≤ 1 ∧
  length (filter (λ e, is_finished_speaking e = true) fr) ≤ 1 ∧
  (∀ i e, fr !! i = Some e → is_assistant_turn e = true →
          ∃ j e', i = S j ∧ fr !! j = Some e' ∧ is_provider_call e' = true) ∧
  (∀ i e, fr !! i = Some e → is_finished_speaking e = true →
          ∃ j e', i = S j ∧ fr !! j = Some e' ∧ is_assistant_turn e' = true).
Proof.
  intros fr. pose proof (server_shapes schedule task) as Hshape.
  unfold holds_for in Hshape. fold fr in Hshape. clearbody fr.
  inversion Hshape; subst;
    repeat match goal with
           | H : audio_prefix _ _ |- _ => destruct H as [->|[? ->]]
           end;
    (split; [vm_compute; lia|]);
    (split; [vm_compute; lia|]);
    (split; [vm_compute; lia|]);
    split; by_position.
Qed.

Lemma effects_of_elem (t : nat) (e : effect) (log : list (nat * effect)) :
  (t, e) ∈ log → e ∈ effects_of t log.
Proof.
  intros Hin. unfold effects_of. apply list_elem_of_fmap. exists (t, e).
  split; [done|]. by apply list_elem_of_filter.
Qed.

(** X2: server.js never looks at the audio it is sent.  Two user turns
    are handled alike whatever their payloads, and in every schedule a
    provider call carries the greeting or one of the ten sample
    queries. *)
Theorem X2_audio_payload_is_ignored :
  (∀ ws connectionId first second st,
     tagged_as "audio_data" first = true →
     tagged_as "audio_data" second = true →
     segment (Server.on_message ws connectionId first) st
     = segment (Server.on_message ws connectionId second) st) ∧
  (∀ schedule task c p,
     (task, SendMessage c p) ∈ w_log (Server.exec Server.boot schedule) →
     p = Greeting ∨ ∃ text, p = Transcript text ∧ text ∈ Server.sampleQueries).
Proof.
  split.
  - intros ws connectionId first second st H1 H2.
    destruct (Server.activeConnections st !! connectionId) as [c|] eqn:Hreg.
    + destruct (decide (Server.chat (Server.deref st c) = object)) as [Hchat|Hchat].
      * by rewrite !(server_audio_accepted _ _ _ _ c).
      * rewrite !server_audio_refused; try done; intros c' Hc'; congruence.
    + rewrite !server_audio_refused; try done; intros c' Hc'; congruence.
  - intros schedule task c p Hin%effects_of_elem.
    pose proof (server_shapes schedule task) as Hshape. unfold holds_for in Hshape.
    revert Hin Hshape.
    generalize (effects_of task (w_log (Server.exec Server.boot schedule))) as fr.
    generalize (w_pending (Server.exec Server.boot schedule) !! task) as k.
    intros k fr Hin Hshape.
    destruct Hshape;
      repeat match goal with
             | H : audio_prefix _ _ |- _ => destruct H as [->|[? ->]]
             end;
      repeat (apply elem_of_cons in Hin as [Hin|Hin]; simplify_eq/=);
      try (by apply elem_of_nil in Hin); eauto.
Qed.

Lemma server_start_segment ws connectionId message st :
  tagged_as "start_conversation" message = true →
  segment (Server.on_message ws connectionId message) st
  = match Server.activeConnections st !! connectionId with
    | Some c =>
        Outcome
          (Server.assign c (Server.set_isSpeaking true)
             (Server.assign c (Server.set_isSpeaking false)
                (Server.assign c (Server.set_isListening true)
                   (Server.assign c (Server.set_chat object)
                      (Server.assign c (Server.set_model object) st)))))
          [Send ws (conversation_started "Ready to chat about Revolt Motors!");
           SendMessage c Greeting]
          (Some (Server.greeting_reply ws c)) None
    | None => Outcome st [Send ws (error "Failed to start conversation")] None None
    end.
Proof.
  intros Htag. dispatch Htag.
  unfold Server.handleStartConversation, Server.activeConnections_get, Server.start_failed.
  run_handler; done.
Qed.

Lemma server_started_state st c o :
  Server.objects st !! c = Some o →
  Server.deref
    (Server.assign c (Server.set_isSpeaking true)
       (Server.assign c (Server.set_isSpeaking false)
          (Server.assign c (Server.set_isListening true)
             (Server.assign c (Server.set_chat object)
                (Server.assign c (Server.set_model object) st))))) c
  = {| Server.isListening := true; Server.isSpeaking := Some true;
       Server.model := object; Server.chat := object |}.
Proof.
  intros Ho. unfold Server.deref, Server.assign. simpl.
  rewrite !lookup_alter_eq, Ho. done.
Qed.



(** X4: when the greeting call fails, or its response cannot be read, the
    client gets one [error] and nothing else changes: [isSpeaking], set
    before the call, stays true and no timer is left to clear it.  The
    session is therefore [Speaking] although nothing was said, and the
    next user turn is taken as an interruption. *)
Theorem X4_failed_greeting_leaves_speaking
    (st : Server.state) (ws c : nat) (connectionId : string)
    (start turn : parse_result) (e : string) :
  tagged_as "start_conversation" start = true →
  tagged_as "audio_data" turn = true →
  Server.activeConnections st !! connectionId = Some c →
  is_Some (Server.objects st !! c) →
  let o := segment (Server.on_message ws connectionId start) st in
  o_pending o = Some (Server.greeting_reply ws c) ∧
  Server.on_wake (Server.greeting_reply ws c) (Rejected e) (o_state o)
  = Some (Outcome (o_state o) [Send ws (error "Failed to start conversation")] None None) ∧
  Server.on_wake (Server.greeting_reply ws c) (Blocked e) (o_state o)
  = Some (Outcome (o_state o) [Send ws (error "Failed to start conversation")] None None) ∧
  Server.phase_of (Server.deref (o_state o) c) = Speaking ∧
  segment (Server.on_message ws connectionId turn) (o_state o)
  = Outcome (Server.assign c (Server.set_isSpeaking false) (o_state o))
      [Send ws (natural_interrupt "AI stopped due to user voice input")]
      (Some (Server.stt_result ws c)) None.
Proof.
  intros Hstart Hturn Hreg [x Hx] o.
  assert (o_pending o = Some (Server.greeting_reply ws c) ∧
          Server.activeConnections (o_state o) !! connectionId = Some c ∧
          Server.deref (o_state o) c
          = {| Server.isListening := true; Server.isSpeaking := Some true;
               Server.model := object; Server.chat := object |}) as (Hp & Hreg' & Hd).
  { subst o. rewrite (server_start_segment _ _ _ _ Hstart), Hreg. simpl.
    repeat split; [done|]. by eapply server_started_state. }
  repeat split; try done.
  - by rewrite Hd.
  - rewrite (server_audio_accepted _ _ _ _ c); try done; by rewrite Hd.
Qed.

(** X4 on a socket that has only connected. *)
Lemma X4_failed_greeting_leaves_speaking_witness :
  let st := w_state (Server.exec Server.boot [Arrive (Server.connection_event 0 "k3x9q2m1z")]) in
  let o := segment (Server.on_message 0 "k3x9q2m1z" (typed "start_conversation")) st in
  o_pending o = Some (Server.greeting_reply 0 0) ∧
  Server.on_wake (Server.greeting_reply 0 0) (Rejected "503") (o_state o)
  = Some (Outcome (o_state o) [Send 0 (error "Failed to start conversation")] None None) ∧
  Server.on_wake (Server.greeting_reply 0 0) (Blocked "503") (o_state o)
  = Some (Outcome (o_state o) [Send 0 (error "Failed to start conversation")] None None) ∧
  Server.phase_of (Server.deref (o_state o) 0) = Speaking ∧
  segment (Server.on_message 0 "k3x9q2m1z" (typed "audio_data")) (o_state o)
  = Outcome (Server.assign 0 (Server.set_isSpeaking false) (o_state o))
      [Send 0 (natural_interrupt "AI stopped due to user voice input")]
      (Some (Server.stt_result 0 0)) None.
Proof.
  apply (X4_failed_greeting_leaves_speaking _ 0 0 "k3x9q2m1z");
    [vm_compute; reflexivity..|].
  vm_compute. eauto.
Defined.

(** X5: closing a socket, or an error on it, cancels nothing.  A handler
    suspended at the transcription, at a provider call or at a speaking
    timer is resumed after [close] exactly as it would have been before:
    same provider call, same frames passed to [ws.send], same writes to
    the connection object it kept. *)
Theorem X5_close_cancels_nothing
    (k : Server.cont) (v : wake) (st : Server.state)
    (ws : nat) (connectionId : string) (rs : ready_state) :
  (∀ ws' id, k ≠ Server.ready_timer ws' id) →
  visible <$> Server.on_wake k v (Server.on_end ws connectionId rs st)
  = visible <$> Server.on_wake k v st.
Proof.
  intros Hk. destruct k as [ws0 c|ws0 c|ws0 c text|ws0 c|ws0 id0];
    [| | | |by destruct (Hk ws0 id0)]; unfold visible.
  - destruct v; simpl; try done.
  - destruct v; simpl; try done. case_bool_decide; simpl; [|done].
    unfold Server.resumed, Server.message_failed, Server.audio_failed, Server.read,
      Server.deref, Server.on_end.
    run_handler; done.
  - destruct v; simpl; try done.
  - destruct v; simpl; try done.
    unfold Server.finished_speaking, Server.read, Server.deref, Server.on_end.
    run_handler; done.
Qed.

(** X5 for the first turn in flight. *)
Lemma X5_close_cancels_nothing_witness :
  let st := w_state (Server.exec Server.boot first_turn_in_flight) in
  visible <$> Server.on_wake (Server.provider_reply 0 0 "What's the top speed?")
                (Fulfilled "85 kmph") (Server.on_end 0 "k3x9q2m1z" CLOSED st)
  = visible <$> Server.on_wake (Server.provider_reply 0 0 "What's the top speed?")
                  (Fulfilled "85 kmph") st.
Proof. apply X5_close_cancels_nothing. done. Defined.

(** X6: [handleInterrupt], the handler server.js defines but never calls,
    would only toggle [isListening]: it acknowledges with [interrupted],
    and half a second later sets [isListening] back and sends
    [ready_for_input]; [isSpeaking], [chat] and [model] are as before
    throughout, and no provider call is made.  If the entry was deleted
    in between, the timer does nothing. *)
Theorem X6_handleInterrupt_toggles_listening
    (st : Server.state) (ws c : nat) (connectionId : string) :
  Server.activeConnections st !! connectionId = Some c →
  is_Some (Server.objects st !! c) →
  let o := segment (Server.handleInterrupt ws connectionId) st in
  let o' := segment (Server.ready_again ws connectionId) (o_state o) in
  o_effects o = [Send ws (interrupted "AI stopped speaking, ready for new input")] ∧
  o_pending o = Some (Server.ready_timer ws connectionId) ∧
  Server.deref (o_state o) c = Server.set_isListening false (Server.deref st c) ∧
  o_effects o' = [Send ws (ready_for_input "Ready for your question")] ∧
  o_pending o' = None ∧
  Server.deref (o_state o') c = Server.set_isListening true (Server.deref st c) ∧
  (∀ ws' rs,
     segment (Server.ready_again ws connectionId)
       (Server.on_end ws' connectionId rs (o_state o))
     = Outcome (Server.on_end ws' connectionId rs (o_state o)) [] None None).
Proof.
  intros Hreg [x Hx].
  unfold Server.handleInterrupt, Server.ready_again, Server.activeConnections_get.
  run_handler; try done.
  all: try (rewrite lookup_delete_eq in *; done).
  split_and!; try done;
    unfold Server.deref, Server.assign; simpl; by rewrite !lookup_alter_eq, Hx.
Qed.

(** X6 while the greeting is spoken. *)
Lemma X6_handleInterrupt_toggles_listening_witness :
  let st := w_state (Server.exec Server.boot greeted) in
  let o := segment (Server.handleInterrupt 0 "k3x9q2m1z") st in
  let o' := segment (Server.ready_again 0 "k3x9q2m1z") (o_state o) in
  o_effects o = [Send 0 (interrupted "AI stopped speaking, ready for new input")] ∧
  o_pending o = Some (Server.ready_timer 0 "k3x9q2m1z") ∧
  Server.deref (o_state o) 0 = Server.set_isListening false (Server.deref st 0) ∧
  o_effects o' = [Send 0 (ready_for_input "Ready for your question")] ∧
  o_pending o' = None ∧
  Server.deref (o_state o') 0 = Server.set_isListening true (Server.deref st 0) ∧
  (∀ ws' rs,
     segment (Server.ready_again 0 "k3x9q2m1z")
       (Server.on_end ws' "k3x9q2m1z" rs (o_state o))
     = Outcome (Server.on_end ws' "k3x9q2m1z" rs (o_state o)) [] None None).
Proof.
  apply (X6_handleInterrupt_toggles_listening _ 0 0 "k3x9q2m1z");
    [vm_compute; reflexivity|].
  vm_compute. eauto.
Defined.

(** X7: speaking timers are neither cancelled nor tied to their turn.
    When a reply has just been sent for a user turn, the timer left by an
    earlier response of the same connection ends the speaking of the new
    one: it clears [isSpeaking] and sends [ai_finished_speaking]. *)
Theorem X7_stale_timer_ends_the_next_response
    (st : Server.state) (ws c : nat) (text reply : string) :
  is_Some (Server.objects st !! c) →
  ∃ o o',
    Server.on_wake (Server.provider_reply ws c text) (Fulfilled reply) st = Some o ∧
    o_effects o = [Send ws (ai_response reply (Some text))] ∧
    Server.speaking (Server.deref (o_state o) c) = true ∧
    Server.on_wake (Server.speaking_timer ws c) Elapsed (o_state o) = Some o' ∧
    o_effects o' = [Send ws ai_finished_speaking] ∧
    Server.speaking (Server.deref (o_state o') c) = false ∧
    o_pending o' = None.
Proof.
  intros [x Hx]. eexists _, _. split; [apply server_reply|]. simpl.
  assert (Server.speaking
            (Server.deref (Server.assign c (Server.set_isSpeaking true) st) c) = true)
    as Hs.
  { unfold Server.deref, Server.assign. simpl. by rewrite lookup_alter_eq, Hx. }
  split; [done|]. split; [done|].
  unfold Server.finished_speaking, Server.read.
  run_handler; try congruence.
  split; [done|]. split; [done|]. split; [|done].
  unfold Server.deref, Server.assign. simpl. by rewrite !lookup_alter_eq, Hx.
Qed.

(** X7 when the first user turn is answered while the timer of the
    greeting is still pending. *)
Lemma X7_stale_timer_ends_the_next_response_witness :
  let st := w_state (Server.exec Server.boot greeted) in
  ∃ o o',
    Server.on_wake (Server.provider_reply 0 0 "What's the top speed?")
      (Fulfilled "85 kmph") st = Some o ∧
    o_effects o = [Send 0 (ai_response "85 kmph" (Some "What's the top speed?"))] ∧
    Server.speaking (Server.deref (o_state o) 0) = true ∧
    Server.on_wake (Server.speaking_timer 0 0) Elapsed (o_state o) = Some o' ∧
    o_effects o' = [Send 0 ai_finished_speaking] ∧
    Server.speaking (Server.deref (o_state o') 0) = false ∧
    o_pending o' = None.
Proof.
  apply (X7_stale_timer_ends_the_next_response _ 0 0). vm_compute. eauto.
Defined.

(** ** part_000 *)

Section StateInvariants.
Context {St K Ev : Type}.
Variable on_event : Ev → St → option (outcome St K).
Variable on_wake : K → wake → St → option (outcome St K).
Variable I : St → Prop.
Hypothesis I_event : ∀ e st o, on_event e st = Some o → I st → I (o_state o).
Hypothesis I_wake : ∀ k v st o, on_wake k v st = Some o → I st → I (o_state o).

Lemma state_invariant_run (w : @world St K) (s : list action) :
  I (w_state w) → I (w_state (run on_event on_wake w s)).
Proof.
  apply (world_invariant_run on_event on_wake (λ w, I (w_state w))).
  intros w0 w' a Hw Hstep. destruct a as [e|t v]; simpl in Hstep.
  - destruct (on_event e (w_state w0)) as [o|] eqn:Ho; simplify_eq/=. by eapply I_event.
  - destruct (w_pending w0 !! t) as [k|]; simplify_eq/=.
    destruct (on_wake k v (w_state w0)) as [o|] eqn:Ho; simplify_eq/=. by eapply I_wake.
Qed.
End StateInvariants.

Ltac heap_cases :=
  repeat match goal with
         | H : context [alter _ _ _ !! _] |- _ => rewrite lookup_alter in H
         | H : context [<[_ := _]> _ !! _] |- _ => rewrite lookup_insert in H
         | H : context [delete _ _ !! _] |- _ => rewrite lookup_delete in H
         | |- context [alter _ _ _ !! _] => rewrite lookup_alter
         | |- context [<[_ := _]> _ !! _] => rewrite lookup_insert
         | |- context [delete _ _ !! _] => rewrite lookup_delete
         | _ => progress (case_decide; simplify_eq/=)
         | H : context [_ <$> ?m !! ?i] |- _ => destruct (m !! i) eqn:?; simplify_eq/=
         | |- context [_ <$> ?m !! ?i] => destruct (m !! i) eqn:?; simplify_eq/=
         end.

Lemma voice_consistent_event e st o :
  Voice.on_event e st = Some o → voice_consistent st → voice_consistent (o_state o).
Proof.
  destruct e as [ws|ws message|ws|ws]; simpl; intros Ho Hinv.
  - destruct (Voice.sockets st !! ws); simplify_eq/=.
    intros ws' o' H. simpl in H. heap_cases; eauto.
  - destruct (Voice.sockets st !! ws) as [[]|]; simplify_eq.
    unfold Voice.on_message, Voice.handleStartConversation, Voice.startConversation,
      Voice.handleAudioData, Voice.processAudio, Voice.Buffer_from,
      Voice.handleNaturalInterrupt, Voice.handleEndConversation,
      Voice.endConversation, Voice.read, Voice.message_failed, Voice.audio_failed.
    run_handler; try done.
    all: intros ws' o' H; simpl in H; heap_cases; eauto.
  - destruct (Voice.sockets st !! ws) as [[]|]; simplify_eq;
      unfold Voice.on_close, Voice.endConversation; run_handler; try done.
    all: intros ws' o' H; simpl in H; heap_cases; eauto.
  - destruct (Voice.sockets st !! ws) as [[]|]; simplify_eq; done.
Qed.

Lemma voice_consistent_wake k v st o :
  Voice.on_wake k v st = Some o → voice_consistent st → voice_consistent (o_state o).
Proof.
  destruct k as [ws]; simpl; intros Ho Hinv.
  destruct v; simplify_eq/=;
    unfold Voice.resumed, Voice.message_failed, Voice.audio_failed in *;
    run_handler; try done.
  all: intros ws' o' H; simpl in H; heap_cases; eauto.
  all: match goal with H : Voice.objects _ !! _ = Some _ |- _ => apply Hinv in H end; done.
Qed.

(** X8: in part_000, after every schedule and for every session,
    [isActive] is true exactly when [chat] holds a chat: the two are
    always written together, by [startConversation] and by
    [endConversation]. *)
Theorem X8_voice_active_iff_chat (schedule : list Voice.action) (ws : nat) :
  let o := Voice.deref (w_state (Voice.exec Voice.boot schedule)) ws in
  Voice.isActive o = truthy (Voice.chat o).
Proof.
  assert (voice_consistent (w_state (Voice.exec Voice.boot schedule))) as Hinv.
  { apply (state_invariant_run Voice.on_event Voice.on_wake voice_consistent
             voice_consistent_event voice_consistent_wake).
    intros ws' o' H. simpl in H. by rewrite lookup_empty in H. }
  simpl. unfold Voice.deref.
  destruct (Voice.objects _ !! ws) as [o|] eqn:Ho; [by eapply Hinv|done].
Qed.

Set Warnings "-clear-no-such-hyp".

Ltac use_lookups :=
  repeat match goal with
         | Heq : ?m !! ?i = _, R : context [?m !! ?i] |- _ =>
             lazymatch type of R with
             | m !! i = _ => fail
             | _ => rewrite Heq in R
             end
         end;
  simpl in *.

Ltac registry_split R1 R3 :=
  split_and!;
  [ intros ws' c' H; simpl in *; heap_cases;
    try (apply R1 in H as [-> H]); solve [ eauto | intuition congruence ]
  | intros ws' H; simpl in *; heap_cases;
    solve [ eauto | intuition congruence ]
  | intros ws' H; simpl in *; unfold Voice.deref in *; simpl in *; heap_cases;
    try (specialize (R3 _ H)); use_lookups;
    solve [ eauto | intuition congruence ] ].

Ltac registry_cases Hinv :=
  destruct Hinv as (R1 & R2 & R3);
  first
    [ match goal with
      | Hn : Voice.sessions ?s !! ?w = None, Hs : Voice.sockets ?s !! ?w = Some _ |- _ =>
          rewrite R2 in Hn by eauto; discriminate Hn
      end
    | match goal with
      | Hc : Voice.sessions ?s !! ?w = Some ?c, Hs : Voice.sockets ?s !! ?w = Some _ |- _ =>
          let E := fresh in pose proof (R1 _ _ Hc) as [E _]; subst c
      end; registry_split R1 R3
    | registry_split R1 R3 ].

Lemma voice_registry_event e st o :
  Voice.on_event e st = Some o → voice_registry st → voice_registry (o_state o).
Proof.
  destruct e as [ws|ws message|ws|ws]; simpl; intros Ho Hinv.
  - destruct (Voice.sockets st !! ws) eqn:Hws; simplify_eq/=. registry_cases Hinv.
  - destruct (Voice.sockets st !! ws) as [[]|] eqn:Hws; simplify_eq.
    unfold Voice.on_message, Voice.handleStartConversation, Voice.startConversation,
      Voice.handleAudioData, Voice.processAudio, Voice.Buffer_from,
      Voice.handleNaturalInterrupt, Voice.handleEndConversation,
      Voice.endConversation, Voice.read, Voice.message_failed, Voice.audio_failed.
    run_handler; try done.
    all: registry_cases Hinv.
  - destruct (Voice.sockets st !! ws) as [[]|] eqn:Hws; simplify_eq;
      unfold Voice.on_close, Voice.endConversation; run_handler; try done.
    all: registry_cases Hinv.
  - destruct (Voice.sockets st !! ws) as [[]|] eqn:Hws; simplify_eq/=.
    registry_cases Hinv.
Qed.

Lemma voice_registry_wake k v st o :
  Voice.on_wake k v st = Some o → voice_registry st → voice_registry (o_state o).
Proof.
  destruct k as [ws]; simpl; intros Ho Hinv.
  destruct v; simplify_eq/=;
    unfold Voice.resumed, Voice.message_failed, Voice.audio_failed in *;
    run_handler; try done.
  all: registry_cases Hinv.
Qed.

(** X9: in part_000, after every schedule, a socket has its entry in
    [sessions] exactly as long as it is not closed: the entry is made on
    [connection] and deleted on [close] only, an [error] on the socket
    leaves it.  The session of a closed socket is ended: not active, no
    chat. *)
Theorem X9_voice_entry_until_close (schedule : list Voice.action) (ws : nat) :
  let st := w_state (Voice.exec Voice.boot schedule) in
  (Voice.sessions st !! ws = Some ws ↔
   Voice.sockets st !! ws = Some OPEN ∨ Voice.sockets st !! ws = Some CLOSING) ∧
  (Voice.sessions st !! ws = None ∨ Voice.sessions st !! ws = Some ws) ∧
  (Voice.sockets st !! ws = Some CLOSED →
   Voice.isActive (Voice.deref st ws) = false ∧ Voice.chat (Voice.deref st ws) = null).
Proof.
  assert (voice_registry (w_state (Voice.exec Voice.boot schedule)))
    as (R1 & R2 & R3).
  { apply (state_invariant_run Voice.on_event Voice.on_wake voice_registry
             voice_registry_event voice_registry_wake).
    split_and!; simpl; intros *; rewrite lookup_empty; naive_solver. }
  simpl. split_and!.
  - split; [by intros [_ H]%R1|apply R2].
  - destruct (Voice.sessions _ !! ws) as [c|] eqn:Hc; [|by left].
    right. by apply R1 in Hc as [-> _].
  - apply R3.
Qed.

(** X10: in an active conversation of part_000 an [audio_data] frame
    whose [audio] is a string or an array goes to the provider as it is,
    with its [mimeType], and nothing is sent to the client yet; a frame
    with no [audio], or with [null], a number or a boolean, makes no
    provider call and is answered with one [error].  The state is as
    before in both cases. *)
Theorem X10_voice_audio_payload (st : Voice.state) (ws : nat) (data : json) :
  tagged_as "audio_data" (Parsed data) = true →
  Voice.isActive (Voice.deref st ws) = true →
  Voice.chat (Voice.deref st ws) = object →
  let o := segment (Voice.on_message ws (Parsed data)) st in
  match property data "audio" with
  | Some (JStr _) | Some (JArr _) =>
      o = Outcome st
            [SendMessage ws (Audio (property data "audio") (property data "mimeType"))]
            (Some (Voice.audio_result ws)) None
  | Some (JObj _) => True
  | _ => ∃ e, o = Outcome st [Send ws (error ("Failed to process audio: " +:+ e))] None None
  end.
Proof.
  intros Htag Hactive Hchat o. subst o.
  simpl in Htag. apply tag_is_true in Htag.
  assert (is_null data = false) as Hnull by by destruct data.
  unfold Voice.on_message, Voice.handleAudioData, Voice.processAudio,
    Voice.Buffer_from, Voice.read, Voice.audio_failed.
  repeat (progress unfold segment, JSON_parse, data_type, try_catch, send, emit,
            modify, get_state, await, throw, mbind, js_bind, mret, js_ret in *).
  simpl. rewrite Hnull, Htag. simpl. rewrite Hactive, Hchat. simpl.
  destruct (property data "audio") as [[]|]; simpl; eauto.
Qed.

(** X10 on a frame that lacks [audio]. *)
Lemma X10_voice_audio_payload_witness :
  let st := w_state (Voice.exec Voice.boot
                       [ Arrive (Voice.connection_event 0);
                         Arrive (Voice.message_event 0 (typed "start_conversation")) ]) in
  ∃ e, segment (Voice.on_message 0 (typed "audio_data")) st
       = Outcome st [Send 0 (error ("Failed to process audio: " +:+ e))] None None.
Proof.
  apply (X10_voice_audio_payload _ 0 (JObj [("type", JStr "audio_data")]));
    vm_compute; reflexivity.
Defined.

Lemma responses_on_app ws l1 l2 :
  responses_on ws (l1 ++ l2) = responses_on ws l1 + responses_on ws l2.
Proof. unfold responses_on. by rewrite filter_app, length_app. Qed.

Lemma response_counted ws ws' t text transcription :
  length (filter (λ p : nat * effect, is_response_on ws p.2 = true)
            [(t, Send ws' (ai_response text transcription))])
  = if decide (ws' = ws) then 1 else 0.
Proof.
  case_decide; subst.
  - rewrite filter_cons_True; [done|]. simpl. by rewrite bool_decide_eq_true_2.
  - rewrite filter_cons_False; [done|]. simpl. by rewrite bool_decide_eq_false_2.
Qed.

Ltac count_responses :=
  rewrite ?responses_on_app; simpl;
  unfold responses_on; rewrite ?response_counted; simpl;
  repeat (case_decide; simplify_eq/=);
  rewrite ?length_app; simpl;
  try done; try lia.

Ltac ledger_facts L0 L1 L2 L3 :=
  try congruence;
  try match goal with
      | Hk : w_pending _ !! _ = Some (Voice.audio_result ?ws),
        Heq : Voice.objects _ !! ?ws = None |- _ =>
          apply L1 in Hk; rewrite Heq in Hk; by destruct Hk
      end;
  repeat match goal with
         | Hs : Voice.sockets _ !! ?ws = None |- context [responses_on ?ws (w_log _)] =>
             rewrite (L2 ws) by (by apply L0)
         | Heq : Voice.objects _ !! ?ws = None |- context [responses_on ?ws (w_log _)] =>
             rewrite (L2 _ Heq)
         | Heq : Voice.objects _ !! ?ws = Some _ |- context [responses_on ?ws (w_log _)] =>
             rewrite <- (L3 _ _ Heq)
         | |- is_Some (Voice.objects ?st !! ?ws) =>
             let E := fresh in
             destruct (Voice.objects st !! ws) eqn:E; [by eauto|apply L0 in E; congruence]
         end;
  try done; try lia.

Ltac ledger L0 L1 L2 L3 :=
  unfold voice_ledger, commit; simpl;
  split_and!;
  [ intros ws'; specialize (L0 ws'); simpl; heap_cases; try done;
    solve [ intuition congruence | by destruct L0; split; intros; simplify_eq; eauto ]
  | intros t' ws' H; simpl in *; heap_cases; eauto;
    try (apply L1 in H; destruct H as [? H]); simpl; heap_cases; eauto;
    ledger_facts L0 L1 L2 L3
  | intros ws' H; simpl in *; rewrite ?responses_on_app, ?app_nil_r; simpl;
    heap_cases; ledger_facts L0 L1 L2 L3; count_responses
  | intros ws' o' H; simpl in *; rewrite ?responses_on_app, ?app_nil_r; simpl;
    heap_cases; ledger_facts L0 L1 L2 L3; count_responses ].

Lemma voice_ledger_step (w w' : Voice.world) (a : Voice.action) :
  voice_ledger w → step Voice.on_event Voice.on_wake w a = Some w' → voice_ledger w'.
Proof.
  intros (L0 & L1 & L2 & L3) Hstep. destruct a as [[ws|ws message|ws|ws]|t v]; simpl in Hstep.
  - destruct (Voice.sockets (w_state w) !! ws) eqn:Hws; simplify_eq/=.
    ledger L0 L1 L2 L3.
  - destruct (Voice.sockets (w_state w) !! ws) as [[]|] eqn:Hws; simplify_eq/=.
    unfold Voice.on_message, Voice.handleStartConversation, Voice.startConversation,
      Voice.handleAudioData, Voice.processAudio, Voice.Buffer_from,
      Voice.handleNaturalInterrupt, Voice.handleEndConversation,
      Voice.endConversation, Voice.read, Voice.message_failed, Voice.audio_failed.
    run_handler.
    all: ledger L0 L1 L2 L3.
  - destruct (Voice.sockets (w_state w) !! ws) as [[]|] eqn:Hws; simplify_eq/=;
      unfold Voice.on_close, Voice.endConversation in *; run_handler;
      ledger L0 L1 L2 L3.
  - destruct (Voice.sockets (w_state w) !! ws) as [[]|] eqn:Hws; simplify_eq/=;
      ledger L0 L1 L2 L3.
  - destruct (w_pending w !! t) as [[ws]|] eqn:Hk; simplify_eq/=.
    destruct v; simplify_eq/=;
      unfold Voice.resumed, Voice.message_failed, Voice.audio_failed in *;
      run_handler; ledger L0 L1 L2 L3.
Qed.

(** X11: in part_000 the [history] of a session is a ledger of what was
    said on its socket.  After every schedule it holds exactly one entry
    for every [ai_response] written to the socket; ending or restarting
    the conversation, and closing the socket, never shorten it. *)
Theorem X11_voice_history_counts_responses (schedule : list Voice.action) (ws : nat) :
  let w := Voice.exec Voice.boot schedule in
  length (Voice.history (Voice.deref (w_state w) ws)) = responses_on ws (w_log w).
Proof.
  assert (voice_ledger (Voice.exec Voice.boot schedule)) as (_ & _ & L2 & L3).
  { apply (world_invariant_run Voice.on_event Voice.on_wake voice_ledger);
      [intros w w' a; apply voice_ledger_step|].
    split_and!; simpl; intros *; rewrite ?lookup_empty; done. }
  simpl. unfold Voice.deref.
  destruct (Voice.objects _ !! ws) as [o|] eqn:Ho; simpl.
  - by apply L3.
  - by rewrite L2.
Qed.

(** ** part_001 *)

Lemma live_consistent_event e st o :
  Live.on_event e st = Some o → live_consistent st → live_consistent (o_state o).
Proof.
  destruct e as [ws|ws message|ws|ws]; simpl; intros Ho Hinv.
  - destruct (Live.sockets st !! ws); simplify_eq/=.
    intros ws' o' H. simpl in H. heap_cases; try (by eauto); try (by intros; simplify_eq/=).
  - destruct (Live.sockets st !! ws) as [[]|]; simplify_eq.
    unfold Live.on_message, Live.startLiveSession, Live.handleAudioData,
      Live.handleTextInput, Live.handleInterruption, Live.endLiveSession,
      Live.read, Live.message_failed, Live.input_failed.
    run_handler; try done.
    all: intros ws' o' H; simpl in H; heap_cases; try (by eauto); try (by intros; simplify_eq/=).
  - destruct (Live.sockets st !! ws) as [[]|]; simplify_eq;
      unfold Live.on_close, Live.endLiveSession, Live.read; run_handler; try done.
    all: intros ws' o' H; simpl in H; heap_cases; try (by eauto); try (by intros; simplify_eq/=).
  - destruct (Live.sockets st !! ws) as [[]|]; simplify_eq; done.
Qed.

Lemma live_consistent_wake k v st o :
  Live.on_wake k v st = Some o → live_consistent st → live_consistent (o_state o).
Proof.
  destruct k as [ws|ws]; simpl; intros Ho Hinv.
  - destruct v; simplify_eq/=.
    unfold Live.resumed, Live.message_failed in *; run_handler; try done.
    all: intros ws' o' H; simpl in H; heap_cases; try (by eauto); try (by intros; simplify_eq/=).
  - destruct v; simplify_eq/=;
      unfold Live.resumed, Live.message_failed, Live.input_failed in *;
      run_handler; done.
Qed.

(** X12: in part_001, after every schedule, a connection whose
    [isSessionActive] is true has a chat in [liveSession]; the guard
    [liveSession && isSessionActive] therefore never passes on a
    session without chat. *)
Theorem X12_live_active_has_session (schedule : list Live.action) (ws : nat) :
  let o := Live.deref (w_state (Live.exec Live.boot schedule)) ws in
  Live.isSessionActive o = true → Live.liveSession o = object.
Proof.
  assert (live_consistent (w_state (Live.exec Live.boot schedule))) as Hinv.
  { apply (state_invariant_run Live.on_event Live.on_wake live_consistent
             live_consistent_event live_consistent_wake).
    intros ws' o' H. simpl in H. by rewrite lookup_empty in H. }
  simpl. unfold Live.deref.
  destruct (Live.closures _ !! ws) as [o|] eqn:Ho; [by eapply Hinv|done].
Qed.

(** X12 on a session that was started. *)
Lemma X12_live_active_has_session_witness :
  let o := Live.deref (w_state (Live.exec Live.boot
                         [ Arrive (Live.connection_event 0);
                           Arrive (Live.message_event 0 (typed "start_session")) ])) 0 in
  Live.isSessionActive o = true ∧ Live.liveSession o = object.
Proof.
  split; [vm_compute; reflexivity|].
  apply (X12_live_active_has_session
           [ Arrive (Live.connection_event 0);
             Arrive (Live.message_event 0 (typed "start_session")) ] 0).
  vm_compute. reflexivity.
Defined.

Lemma live_shape_event e st o :
  Live.on_event e st = Some o → live_shape (o_pending o) (o_effects o).
Proof.
  destruct e as [ws|ws message|ws|ws]; simpl; intros Ho.
  - destruct (Live.sockets st !! ws); simplify_eq. constructor.
  - destruct (Live.sockets st !! ws) as [[]|]; simplify_eq.
    unfold Live.on_message, Live.startLiveSession, Live.handleAudioData,
      Live.handleTextInput, Live.handleInterruption, Live.endLiveSession,
      Live.read, Live.message_failed, Live.input_failed.
    run_handler; by econstructor.
  - destruct (Live.sockets st !! ws) as [[]|]; simplify_eq;
      unfold Live.on_close, Live.endLiveSession, Live.read; run_handler; constructor.
  - destruct (Live.sockets st !! ws) as [[]|]; simplify_eq; constructor.
Qed.

Lemma live_shape_wake k v st o fr :
  live_shape (Some k) fr → Live.on_wake k v st = Some o →
  live_shape (o_pending o) (fr ++ o_effects o).
Proof.
  intros Hshape Ho. inversion Hshape; subst; simpl in Ho.
  - destruct v; simplify_eq/=.
    unfold Live.resumed, Live.message_failed in *; run_handler; constructor.
  - destruct v; simplify_eq/=; by econstructor.
Qed.

Lemma live_shapes (schedule : list Live.action) (task : nat) :
  holds_for live_shape task (Live.exec Live.boot schedule).
Proof.
  apply (shaped_run Live.on_event Live.on_wake live_shape).
  - constructor.
  - apply live_shape_event.
  - apply live_shape_wake.
Qed.

(** X13: in part_001 the effects of one message are at most three; a
    [text_response] comes directly after the provider call of the same
    message and is followed at once by a [tts_request] with the same
    text, and a [tts_request] never comes otherwise.  The provider is
    called first of all and only with a text: the audio of an
    [audio_data] frame never reaches it. *)
Theorem X13_live_text_then_speech (schedule : list Live.action) (task : nat) :
  let fr := effects_of task (w_log (Live.exec Live.boot schedule)) in
  length fr ≤ 3 ∧
  (∀ i ws r, fr !! i = Some (Send ws (text_response r)) →
             fr !! S i = Some (Send ws (tts_request r)) ∧
             ∃ text, i = 1 ∧ fr !! 0 = Some (SendMessage ws (Text text))) ∧
  (∀ i ws r, fr !! i = Some (Send ws (tts_request r)) →
             i = 2 ∧ fr !! 1 = Some (Send ws (text_response r))) ∧
  (∀ i ws p, fr !! i = Some (SendMessage ws p) → i = 0 ∧ ∃ text, p = Text text).
Proof.
  intros fr. pose proof (live_shapes schedule task) as Hshape.
  unfold holds_for in Hshape. fold fr in Hshape. clearbody fr.
  inversion Hshape; subst;
    (split; [simpl; lia|]);
    split_and!; by_position.
Qed.

Lemma live_closure_assign (st : Live.state) (ws : nat) (f : Live.closure → Live.closure) :
  is_Some (Live.closures st !! ws) →
  Live.deref (Live.assign ws f st) ws = f (Live.deref st ws).
Proof.
  intros [o Ho]. unfold Live.deref, Live.assign. simpl.
  by rewrite lookup_alter_eq, Ho.
Qed.

Lemma live_closure_kept (st : Live.state) (ws : nat) (f : Live.closure → Live.closure) :
  is_Some (Live.closures st !! ws) →
  is_Some (Live.closures (Live.assign ws f st) !! ws).
Proof. intros H. unfold Live.assign. simpl. rewrite lookup_alter_eq. by apply fmap_is_Some. Qed.

Lemma live_turn_dropped (st : Live.state) (ws : nat) (turn : parse_result) (label : string) :
  label ∈ ["audio_data"; "text_input"; "interrupt"] →
  tagged_as label turn = true →
  Live.active (Live.deref st ws) = false →
  segment (Live.on_message ws turn) st = Outcome st [] None None.
Proof.
  intros Hlabel Hturn Hoff.
  rewrite !elem_of_cons, elem_of_nil in Hlabel.
  destruct Hlabel as [->|[->|[->|[]]]]; dispatch Hturn;
    unfold Live.read; rewrite Hoff; by run_handler.
Qed.

Lemma live_end_segment (st : Live.state) (ws : nat) (message : parse_result) :
  tagged_as "end_session" message = true →
  segment (Live.on_message ws message) st
  = if truthy (Live.liveSession (Live.deref st ws))
    then Outcome (Live.assign ws (Live.set_isSessionActive false) st) []
           (Some (Live.end_returned ws)) None
    else Outcome st [] None None.
Proof.
  intros Hend. dispatch Hend.
  unfold Live.read, Live.endLiveSession.
  destruct (truthy _); by run_handler.
Qed.

Lemma live_start_segment (st : Live.state) (ws : nat) (message : parse_result) :
  tagged_as "start_session" message = true →
  ∃ greeting,
    segment (Live.on_message ws message) st
    = Outcome (Live.assign ws (Live.set_isSessionActive true)
                 (Live.assign ws (Live.set_liveSession object) st))
        [Send ws (session_started greeting)] None None.
Proof.
  intros Hstart. dispatch Hstart.
  unfold Live.read, Live.startLiveSession. eexists. by run_handler.
Qed.

Lemma live_end_resumed (st : Live.state) (ws : nat) (text : string) :
  Live.on_wake (Live.end_returned ws) (Fulfilled text) st
  = Some (Outcome (Live.assign ws (Live.set_isSessionActive false)
                     (Live.assign ws (Live.set_liveSession null) st)) [] None None).
Proof. done. Qed.

Lemma live_wiped (st : Live.state) (ws : nat) :
  let o := Live.deref (Live.assign ws (Live.set_isSessionActive false)
                         (Live.assign ws (Live.set_liveSession null) st)) ws in
  Live.liveSession o = null ∧ Live.isSessionActive o = false.
Proof.
  unfold Live.deref, Live.assign. simpl. rewrite !lookup_alter_eq.
  by destruct (Live.closures st !! ws).
Qed.

(** X14: in part_001 an [end_session] is never acknowledged: its handler
    writes nothing, whatever the closure variables hold.  With a session
    it clears [isSessionActive] and suspends at [await endLiveSession];
    from then on the guard [liveSession && isSessionActive] fails, so a
    turn or an interrupt is dropped without a frame, and the resumed
    handler writes nothing either and leaves [liveSession] null. *)
Theorem X14_live_end_is_silent
    (st : Live.state) (ws : nat) (message turn : parse_result) (label : string) :
  tagged_as "end_session" message = true →
  label ∈ ["audio_data"; "text_input"; "interrupt"] →
  tagged_as label turn = true →
  let o := segment (Live.on_message ws message) st in
  o_effects o = [] ∧ o_rejected o = None ∧
  o_pending o = (if truthy (Live.liveSession (Live.deref st ws))
                 then Some (Live.end_returned ws) else None) ∧
  Live.active (Live.deref (o_state o) ws) = false ∧
  segment (Live.on_message ws turn) (o_state o) = Outcome (o_state o) [] None None ∧
  (∀ text, ∃ o', Live.on_wake (Live.end_returned ws) (Fulfilled text) (o_state o) = Some o' ∧
                 o_effects o' = [] ∧ o_pending o' = None ∧ o_rejected o' = None ∧
                 Live.isSessionActive (Live.deref (o_state o') ws) = false ∧
                 Live.liveSession (Live.deref (o_state o') ws) = null).
Proof.
  intros Hend Hlabel Hturn o.
  assert (Live.active (Live.deref (o_state o) ws) = false) as Hoff.
  { subst o. rewrite live_end_segment by done.
    unfold Live.active, Live.deref, Live.assign.
    destruct (Live.closures st !! ws) as [[[] []]|] eqn:Hws;
      simpl; rewrite ?lookup_alter_eq, ?Hws; done. }
  split_and!; try done.
  - subst o. rewrite live_end_segment by done. by destruct (truthy _).
  - subst o. rewrite live_end_segment by done. by destruct (truthy _).
  - subst o. rewrite live_end_segment by done. by destruct (truthy _).
  - by eapply live_turn_dropped.
  - intros text. rewrite live_end_resumed. eexists. split; [done|]. simpl.
    pose proof (live_wiped (o_state o) ws) as [? ?]. done.
Qed.

(** X14 on a session that was started. *)
Lemma X14_live_end_is_silent_witness :
  let st := w_state (Live.exec Live.boot
                       [ Arrive (Live.connection_event 0);
                         Arrive (Live.message_event 0 (typed "start_session")) ]) in
  let o := segment (Live.on_message 0 (typed "end_session")) st in
  o_effects o = [] ∧ o_rejected o = None ∧
  o_pending o = (if truthy (Live.liveSession (Live.deref st 0))
                 then Some (Live.end_returned 0) else None) ∧
  Live.active (Live.deref (o_state o) 0) = false ∧
  segment (Live.on_message 0 (typed "text_input")) (o_state o)
  = Outcome (o_state o) [] None None ∧
  (∀ text, ∃ o', Live.on_wake (Live.end_returned 0) (Fulfilled text) (o_state o) = Some o' ∧
                 o_effects o' = [] ∧ o_pending o' = None ∧ o_rejected o' = None ∧
                 Live.isSessionActive (Live.deref (o_state o') 0) = false ∧
                 Live.liveSession (Live.deref (o_state o') 0) = null).
Proof.
  apply (X14_live_end_is_silent _ 0 (typed "end_session") (typed "text_input") "text_input").
  - vm_compute. reflexivity.
  - apply (bool_decide_unpack _). vm_compute. exact I.
  - vm_compute. reflexivity.
Defined.

(** X15: in part_001 a [start_session] handled while the handler of an
    [end_session] is suspended at [await endLiveSession] is answered with
    [session_started] and makes the session active, but the resumed
    [end_session] handler then sets [liveSession = null] and
    [isSessionActive = false]: the session just announced is gone, and
    the next turn is dropped without a frame. *)
Theorem X15_live_start_lost_to_pending_end
    (st : Live.state) (ws : nat) (finish start turn : parse_result) (text : string) :
  tagged_as "end_session" finish = true →
  tagged_as "start_session" start = true →
  tagged_as "text_input" turn = true →
  is_Some (Live.closures st !! ws) →
  Live.liveSession (Live.deref st ws) = object →
  let o1 := segment (Live.on_message ws finish) st in
  let o2 := segment (Live.on_message ws start) (o_state o1) in
  o_pending o1 = Some (Live.end_returned ws) ∧
  (∃ greeting, o_effects o2 = [Send ws (session_started greeting)]) ∧
  Live.deref (o_state o2) ws
  = {| Live.liveSession := object; Live.isSessionActive := true |} ∧
  ∃ o3, Live.on_wake (Live.end_returned ws) (Fulfilled text) (o_state o2) = Some o3 ∧
        o_effects o3 = [] ∧
        Live.deref (o_state o3) ws = Live.entered ∧
        segment (Live.on_message ws turn) (o_state o3) = Outcome (o_state o3) [] None None.
Proof.
  intros Hend Hstart Hturn Hws Hlive o1 o2.
  destruct (live_start_segment (o_state o1) ws start Hstart) as [greeting Ho2].
  subst o2. rewrite Ho2. subst o1. rewrite live_end_segment, Hlive by done.
  cbn [truthy o_state o_effects o_pending].
  split; [done|]. split; [by eexists|].
  split.
  { rewrite !live_closure_assign; [reflexivity|..];
      by repeat apply live_closure_kept. }
  rewrite live_end_resumed. eexists. split; [done|].
  cbn [o_state o_effects]. split; [done|].
  match goal with |- Live.deref ?s ws = _ ∧ _ => set (st3 := s) end.
  assert (Live.deref st3 ws = Live.entered) as Hwiped.
  { pose proof (live_wiped
      (Live.assign ws (Live.set_isSessionActive true)
         (Live.assign ws (Live.set_liveSession object)
            (Live.assign ws (Live.set_isSessionActive false) st))) ws) as [H1 H2].
    fold st3 in H1, H2. by destruct (Live.deref st3 ws) as [[] []]; simplify_eq/=. }
  split; [done|].
  eapply (live_turn_dropped _ _ _ "text_input"); [|done|by rewrite Hwiped].
  apply (bool_decide_unpack _). vm_compute. exact I.
Qed.

(** X15 on the first session of a connection. *)
Lemma X15_live_start_lost_to_pending_end_witness :
  let st := w_state (Live.exec Live.boot
                       [ Arrive (Live.connection_event 0);
                         Arrive (Live.message_event 0 (typed "start_session")) ]) in
  let o1 := segment (Live.on_message 0 (typed "end_session")) st in
  let o2 := segment (Live.on_message 0 (typed "start_session")) (o_state o1) in
  o_pending o1 = Some (Live.end_returned 0) ∧
  (∃ greeting, o_effects o2 = [Send 0 (session_started greeting)]) ∧
  Live.deref (o_state o2) 0
  = {| Live.liveSession := object; Live.isSessionActive := true |} ∧
  ∃ o3, Live.on_wake (Live.end_returned 0) (Fulfilled "") (o_state o2) = Some o3 ∧
        o_effects o3 = [] ∧
        Live.deref (o_state o3) 0 = Live.entered ∧
        segment (Live.on_message 0 (typed "text_input")) (o_state o3)
        = Outcome (o_state o3) [] None None.
Proof.
  apply (X15_live_start_lost_to_pending_end _ 0 (typed "end_session")
           (typed "start_session") (typed "text_input") "");
    try (vm_compute; reflexivity).
  vm_compute. eauto.
Defined.
